(** * llm-cli: the streaming event reducer and the one-shot request path

    A shallow embedding of [index.mjs]: the [onParse] callback that
    [OpenAIStream] hands to the SSE parser, the [ReadableStream] controller
    it drives, the [logger] closure built by [main], and the non-streaming
    branch of [main] with [unwrapMarkdown].

    Conventions of the embedding.
    - A JavaScript string is a [string]: the bytes of its UTF-8 encoding,
      a lone surrogate being written in the three-byte form of its code
      point.  [TextEncoder.encode] is then the identity on well-formed
      text and replaces a lone surrogate by U+FFFD; a chunk of the output
      stream is the byte string it carries.
    - A JavaScript value that came out of [JSON.parse] is a [jsvalue]; the
      value [undefined] is [None] in an [option jsvalue].
    - A call that may throw returns a [completion]; the closure variables of
      [OpenAIStream] ([counter], [data], [response], the stream controller)
      are threaded through a small state-and-exception monad.
    - The platform pieces the source calls ([JSON.parse], number printing,
      [String.prototype.trim], the stream controller) are modelled after
      ECMAScript and the WHATWG Streams standard. *)

From Stdlib Require Import String Ascii List Bool Arith ZArith Lia.
From Stdlib Require Import DecimalString.
Import ListNotations.
Local Open Scope string_scope.
Set Warnings "-register-all".

(** ** Completions: normal return or a thrown exception *)

Inductive exn : Type :=
| SyntaxError
| TypeError.

Inductive completion (A : Type) : Type :=
| Normal (a : A)
| Throw (e : exn).
Arguments Normal {A} a.
Arguments Throw {A} e.

Definition cbind {A B : Type} (c : completion A) (k : A -> completion B)
  : completion B :=
  match c with
  | Normal a => k a
  | Throw e => Throw e
  end.

(** ** Strings *)

Module Str.

Definition LF : ascii := Ascii.ascii_of_nat 10.

(** [text.match(/\n/)] is non-null exactly when the text holds a line feed. *)
Fixpoint contains_newline (s : string) : bool :=
  match s with
  | EmptyString => false
  | String c rest => if Ascii.eqb c LF then true else contains_newline rest
  end.

Fixpoint rev_append (s acc : string) : string :=
  match s with
  | EmptyString => acc
  | String c rest => rev_append rest (String c acc)
  end.

Definition rev (s : string) : string := rev_append s EmptyString.

(** The double quote, and text written with apostrophes in its place:
    [quoted "{'a':1}"] is the JSON text of an object with the key [a]. *)
Definition dquote : ascii := Ascii.ascii_of_nat 34.

Fixpoint quoted (s : string) : string :=
  match s with
  | EmptyString => EmptyString
  | String c rest =>
      String (if Ascii.eqb c "'"%char then dquote else c) (quoted rest)
  end.

(** [String.prototype.trim] strips the code points that ECMAScript counts
    as WhiteSpace or LineTerminator: TAB, LF, VT, FF, CR, SP, U+00A0,
    U+1680, U+2000..U+200A, U+2028, U+2029, U+202F, U+205F, U+3000 and
    U+FEFF.  In UTF-8 they take one, two or three bytes. *)

(** Whether the bytes [a], [a b] or [a b c] encode such a code point. *)
Definition ws1 (a : ascii) : bool :=
  let n := nat_of_ascii a in
  (((9 <=? n) && (n <=? 13)) || (n =? 32))%nat.

Definition ws2 (a b : ascii) : bool :=
  ((nat_of_ascii a =? 194) && (nat_of_ascii b =? 160))%nat.

Definition ws3 (a b c : ascii) : bool :=
  let x := nat_of_ascii a in
  let y := nat_of_ascii b in
  let z := nat_of_ascii c in
  (((x =? 225) && (y =? 154) && (z =? 128))
   || ((x =? 226) && (y =? 128)
       && (((128 <=? z) && (z <=? 138)) || (z =? 168) || (z =? 169)
           || (z =? 175)))
   || ((x =? 226) && (y =? 129) && (z =? 159))
   || ((x =? 227) && (y =? 128) && (z =? 128))
   || ((x =? 239) && (y =? 187) && (z =? 191)))%nat.

(** Drops white space from the front.  With [backwards] the string is read
    from its end, so the bytes of a code point arrive last byte first. *)
Fixpoint drop_space (backwards : bool) (s : string) : string :=
  match s with
  | EmptyString => s
  | String a r1 =>
      if ws1 a then drop_space backwards r1
      else
        match r1 with
        | EmptyString => s
        | String b r2 =>
            if (if backwards then ws2 b a else ws2 a b)
            then drop_space backwards r2
            else
              match r2 with
              | EmptyString => s
              | String c r3 =>
                  if (if backwards then ws3 c b a else ws3 a b c)
                  then drop_space backwards r3
                  else s
              end
        end
  end.

Definition trimStart (s : string) : string := drop_space false s.

Definition trimEnd (s : string) : string := rev (drop_space true (rev s)).

(** [String.prototype.trim]. *)
Definition trim (s : string) : string := trimEnd (trimStart s).

(** [strip_prefix p s] is the rest of [s] after the prefix [p], if any. *)
Fixpoint strip_prefix (p s : string) : option string :=
  match p, s with
  | EmptyString, _ => Some s
  | String a p', String b s' =>
      if Ascii.eqb a b then strip_prefix p' s' else None
  | String _ _, EmptyString => None
  end.

Definition starts_with (p s : string) : bool :=
  match strip_prefix p s with
  | Some _ => true
  | None => false
  end.

(** [s.split("\n")]: always at least one piece. *)
Fixpoint split_lines (s : string) : list string :=
  match s with
  | EmptyString => [EmptyString]
  | String c rest =>
      if Ascii.eqb c LF then EmptyString :: split_lines rest
      else match split_lines rest with
           | [] => [String c EmptyString]
           | l :: ls => String c l :: ls
           end
  end.

(** [lines.join("\n")]. *)
Fixpoint join_lines (ls : list string) : string :=
  match ls with
  | [] => EmptyString
  | [l] => l
  | l :: ls' => l ++ String LF (join_lines ls')
  end.

End Str.

(** ** Numbers

    A JSON number is kept as the decimal literal that was parsed; what
    JavaScript sees is the IEEE 754 double nearest to it.  Only two
    observations of a number are made by the code under study: whether it
    is truthy (the left side of [||]) and how it prints ([response += text]). *)

Module Number.

(** The literal [-]m * 10^e. *)
Record literal : Type := {
  negative : bool;
  mantissa : Z;
  exponent : Z
}.

(** The magnitude of a double: [Finite m e] is [m * 2^e] with
    [2^52 <= m < 2^53], or [e = -1074] for the subnormal range. *)
Inductive magnitude : Type :=
| Zero
| Finite (m e : Z)
| Infinity.

Definition magnitude_eqb (x y : magnitude) : bool :=
  match x, y with
  | Zero, Zero => true
  | Finite m e, Finite m' e' => (m =? m')%Z && (e =? e')%Z
  | Infinity, Infinity => true
  | _, _ => false
  end.

Local Open Scope Z_scope.

(** [num / den] rounded to the nearest integer, ties to even. *)
Definition round_half_even (num den : Z) : Z :=
  let q := num / den in
  let r := num mod den in
  match 2 * r ?= den with
  | Lt => q
  | Gt => q + 1
  | Eq => if Z.even q then q else q + 1
  end.

(** The double nearest to [m * 10^e10] (round to nearest, ties to even). *)
Definition to_double (m e10 : Z) : magnitude :=
  if m <=? 0 then Zero
  else
    let num := if 0 <=? e10 then m * 10 ^ e10 else m in
    let den := if 0 <=? e10 then 1 else 10 ^ (- e10) in
    let l := Z.log2 num - Z.log2 den in
    let above := if 0 <=? l then den * 2 ^ l <=? num
                 else den <=? num * 2 ^ (- l) in
    let b := if above then l else l - 1 in
    let k := Z.max (b - 52) (-1074) in
    let q := if 0 <=? k then round_half_even num (den * 2 ^ k)
             else round_half_even (num * 2 ^ (- k)) den in
    let k' := if q =? 2 ^ 53 then k + 1 else k in
    let q' := if q =? 2 ^ 53 then 2 ^ 52 else q in
    if q' =? 0 then Zero
    else if 971 <? k' then Infinity
    else Finite q' k'.

Definition value (n : literal) : magnitude :=
  to_double (mantissa n) (exponent n).

(** [ToBoolean]: a number is falsy when it is zero ([NaN] cannot be
    written in JSON). *)
Definition truthy (n : literal) : bool :=
  negb (magnitude_eqb (value n) Zero).

Definition decimal (z : Z) : string :=
  DecimalString.NilZero.string_of_uint (N.to_uint (Z.to_N z)).

Fixpoint zeros (n : nat) : string :=
  match n with
  | O => EmptyString
  | S n' => String "0" (zeros n')
  end.

Fixpoint take (n : nat) (s : string) : string :=
  match n, s with
  | S n', String c r => String c (take n' r)
  | _, _ => EmptyString
  end.

Fixpoint drop (n : nat) (s : string) : string :=
  match n, s with
  | S n', String _ r => drop n' r
  | _, _ => s
  end.

(** The shortest digit string: searches k = [k], [k]+1, ... for [s] with
    k digits such that [s * 10^(n-k)] reads back as the double [x], taking
    the candidate nearest to the exact value [M * 10^E] of [x] (the even
    one on a tie).  [len] is the number of digits of [M]; at k = [len] the
    candidate is [M] itself, so the search ends there at the latest. *)
Fixpoint shortest (fuel : nat) (k : Z) (x : magnitude) (M E len : Z)
  : Z * Z :=
  match fuel with
  | O => (M, len + E)
  | S fuel' =>
      let unit := 10 ^ (len - k) in
      let lo := M / unit in
      let r := M mod unit in
      let hi := lo + 1 in
      let p := len + E - k in
      let lo_ok := magnitude_eqb (to_double lo p) x in
      let hi_ok := magnitude_eqb (to_double hi p) x in
      let pick_hi :=
        match 2 * r ?= unit with
        | Lt => false
        | Gt => true
        | Eq => Z.odd lo
        end in
      let use_hi := hi_ok && (negb lo_ok || pick_hi) in
      if lo_ok || hi_ok then
        if use_hi then
          if hi =? 10 ^ k then (10 ^ (k - 1), len + E + 1)
          else (hi, len + E)
        else (lo, len + E)
      else shortest fuel' (k + 1) x M E len
  end.

(** [Number::toString] in radix 10 for a positive finite double, from the
    digits [s] and the decimal point position [n]. *)
Definition format (s n : Z) : string :=
  let ds := decimal s in
  let k := Z.of_nat (String.length ds) in
  if (k <=? n) && (n <=? 21) then ds ++ zeros (Z.to_nat (n - k))
  else if (0 <? n) && (n <=? 21) then
    take (Z.to_nat n) ds ++ "." ++ drop (Z.to_nat n) ds
  else if (-6 <? n) && (n <=? 0) then
    "0." ++ zeros (Z.to_nat (- n)) ++ ds
  else
    let e := n - 1 in
    let sign := if e <? 0 then "-" else "+" in
    let head := take 1 ds in
    let tail := drop 1 ds in
    (if k =? 1 then head else head ++ "." ++ tail)
    ++ "e" ++ sign ++ decimal (Z.abs e).

Definition magnitude_to_string (x : magnitude) : string :=
  match x with
  | Zero => "0"
  | Infinity => "Infinity"
  | Finite m e =>
      let M := if 0 <=? e then m * 2 ^ e else m * 5 ^ (- e) in
      let E := if 0 <=? e then 0 else e in
      let len := Z.of_nat (String.length (decimal M)) in
      let '(s, n) := shortest (Z.to_nat len) 1 x M E len in
      format s n
  end.

(** [Number::toString]. *)
Definition toString (n : literal) : string :=
  match value n with
  | Zero => "0"
  | x =>
      if negative n then "-" ++ magnitude_to_string x
      else magnitude_to_string x
  end.

End Number.

(** ** JSON values and [JSON.parse] *)

Inductive jsvalue : Type :=
| JNull
| JBool (b : bool)
| JNumber (n : Number.literal)
| JString (s : string)
| JArray (elements : list jsvalue)
| JObject (members : list (string * jsvalue)).

Module JSON.

Inductive token : Type :=
| TLBrace | TRBrace | TLBracket | TRBracket | TColon | TComma
| TString (s : string)
| TNumber (n : Number.literal)
| TTrue | TFalse | TNull.

(** *** Lexer: one pass over the characters *)

Inductive num_state : Type :=
| NSign      (* after the minus sign *)
| NZero      (* integer part is 0 *)
| NInt       (* inside the integer part *)
| NPoint     (* after the decimal point *)
| NFrac      (* inside the fraction *)
| NExpMark   (* after e or E *)
| NExpSign   (* after the sign of the exponent *)
| NExp.      (* inside the exponent *)

Record num_acc : Type := {
  nstate : num_state;
  nneg : bool;
  nmant : Z;
  nfrac : Z;
  eneg : bool;
  eabs : Z
}.

Definition num_literal (a : num_acc) : Number.literal :=
  {| Number.negative := nneg a;
     Number.mantissa := nmant a;
     Number.exponent := ((if eneg a then - eabs a else eabs a) - nfrac a)%Z |}.

Definition num_accepting (a : num_acc) : bool :=
  match nstate a with
  | NZero | NInt | NFrac | NExp => true
  | _ => false
  end.

(** Lexer modes.  A string under construction is kept reversed; [pending]
    holds a high surrogate read from a [\u] escape that still waits for its
    low half. *)
Inductive mode : Type :=
| Idle
| InString (acc : string) (pending : option Z)
| InEscape (acc : string) (pending : option Z)
| InHex (acc : string) (pending : option Z) (remaining : nat) (v : Z)
| InNumber (a : num_acc)
| InWord (rest : string) (t : token).

Definition code (c : ascii) : Z := Z.of_nat (nat_of_ascii c).

Definition byte (z : Z) : ascii := ascii_of_nat (Z.to_nat z).

Definition digit (c : ascii) : option Z :=
  let n := code c in
  if ((48 <=? n) && (n <=? 57))%Z then Some (n - 48)%Z else None.

Definition hex_digit (c : ascii) : option Z :=
  let n := code c in
  if ((48 <=? n) && (n <=? 57))%Z then Some (n - 48)%Z
  else if ((65 <=? n) && (n <=? 70))%Z then Some (n - 55)%Z
  else if ((97 <=? n) && (n <=? 102))%Z then Some (n - 87)%Z
  else None.

(** Pushes the UTF-8 encoding of the code point [cp] on a reversed string.
    A lone surrogate gets the three-byte form of its code point. *)
Definition push_code_point (cp : Z) (acc : string) : string :=
  (if cp <? 128 then String (byte cp) acc
   else if cp <? 2048 then
     String (byte (128 + cp mod 64)) (String (byte (192 + cp / 64)) acc)
   else if cp <? 65536 then
     String (byte (128 + cp mod 64))
       (String (byte (128 + (cp / 64) mod 64))
          (String (byte (224 + cp / 4096)) acc))
   else
     String (byte (128 + cp mod 64))
       (String (byte (128 + (cp / 64) mod 64))
          (String (byte (128 + (cp / 4096) mod 64))
             (String (byte (240 + cp / 262144)) acc))))%Z.

Definition flush (pending : option Z) (acc : string) : string :=
  match pending with
  | Some hi => push_code_point hi acc
  | None => acc
  end.

Definition is_high (u : Z) : bool := ((55296 <=? u) && (u <=? 56319))%Z.
Definition is_low (u : Z) : bool := ((56320 <=? u) && (u <=? 57343))%Z.

(** A complete [\uXXXX] escape delivered the UTF-16 code unit [u]. *)
Definition push_code_unit (u : Z) (acc : string) (pending : option Z)
  : string * option Z :=
  match pending with
  | Some hi =>
      if is_low u then
        (push_code_point (65536 + (hi - 55296) * 1024 + (u - 56320))%Z acc,
         None)
      else if is_high u then (push_code_point hi acc, Some u)
      else (push_code_point u (push_code_point hi acc), None)
  | None =>
      if is_high u then (acc, Some u) else (push_code_point u acc, None)
  end.

Definition start_number (neg : bool) (st : num_state) (m : Z) : mode :=
  InNumber {| nstate := st; nneg := neg; nmant := m; nfrac := 0;
              eneg := false; eabs := 0 |}.

Definition idle_step (c : ascii) : option (mode * list token) :=
  let n := code c in
  (if (n =? 32) || (n =? 9) || (n =? 10) || (n =? 13) then Some (Idle, [])
   else if n =? 123 then Some (Idle, [TLBrace])
   else if n =? 125 then Some (Idle, [TRBrace])
   else if n =? 91 then Some (Idle, [TLBracket])
   else if n =? 93 then Some (Idle, [TRBracket])
   else if n =? 58 then Some (Idle, [TColon])
   else if n =? 44 then Some (Idle, [TComma])
   else if n =? 34 then Some (InString EmptyString None, [])
   else if n =? 45 then Some (start_number true NSign 0, [])
   else if n =? 48 then Some (start_number false NZero 0, [])
   else if (49 <=? n) && (n <=? 57) then
     Some (start_number false NInt (n - 48), [])
   else if n =? 116 then Some (InWord "rue" TTrue, [])
   else if n =? 102 then Some (InWord "alse" TFalse, [])
   else if n =? 110 then Some (InWord "ull" TNull, [])
   else None)%Z.

Definition with_state (a : num_acc) (st : num_state) : num_acc :=
  {| nstate := st; nneg := nneg a; nmant := nmant a; nfrac := nfrac a;
     eneg := eneg a; eabs := eabs a |}.

Definition with_digit (a : num_acc) (st : num_state) (d : Z) : num_acc :=
  {| nstate := st; nneg := nneg a; nmant := (nmant a * 10 + d)%Z;
     nfrac := (match st with NFrac => nfrac a + 1 | _ => nfrac a end)%Z;
     eneg := eneg a; eabs := eabs a |}.

Definition with_exp_digit (a : num_acc) (d : Z) : num_acc :=
  {| nstate := NExp; nneg := nneg a; nmant := nmant a; nfrac := nfrac a;
     eneg := eneg a; eabs := (eabs a * 10 + d)%Z |}.

Definition with_exp_sign (a : num_acc) (neg : bool) : num_acc :=
  {| nstate := NExpSign; nneg := nneg a; nmant := nmant a; nfrac := nfrac a;
     eneg := neg; eabs := eabs a |}.

(** The number automaton: [Some a'] when [c] continues the literal. *)
Definition number_step (a : num_acc) (c : ascii) : option num_acc :=
  let n := code c in
  let is_e := ((n =? 101) || (n =? 69))%Z in
  let is_point := (n =? 46)%Z in
  match nstate a, digit c with
  | NSign, Some d =>
      Some (with_digit a (if (d =? 0)%Z then NZero else NInt) d)
  | NZero, None | NInt, None =>
      if is_point then Some (with_state a NPoint)
      else if is_e then Some (with_state a NExpMark)
      else None
  | NInt, Some d => Some (with_digit a NInt d)
  | NPoint, Some d | NFrac, Some d => Some (with_digit a NFrac d)
  | NFrac, None => if is_e then Some (with_state a NExpMark) else None
  | NExpMark, None =>
      if (n =? 43)%Z then Some (with_exp_sign a false)
      else if (n =? 45)%Z then Some (with_exp_sign a true)
      else None
  | NExpMark, Some d | NExpSign, Some d | NExp, Some d =>
      Some (with_exp_digit a d)
  | _, _ => None
  end.

Definition escape_char (c : ascii) : option Z :=
  let n := code c in
  (if (n =? 34) || (n =? 92) || (n =? 47) then Some n
   else if n =? 98 then Some 8
   else if n =? 102 then Some 12
   else if n =? 110 then Some 10
   else if n =? 114 then Some 13
   else if n =? 116 then Some 9
   else None)%Z.

Definition lex_step (m : mode) (c : ascii) : option (mode * list token) :=
  match m with
  | Idle => idle_step c
  | InString acc pending =>
      if (code c =? 34)%Z then
        Some (Idle, [TString (Str.rev (flush pending acc))])
      else if (code c =? 92)%Z then Some (InEscape acc pending, [])
      else if (code c <? 32)%Z then None
      else Some (InString (String c (flush pending acc)) None, [])
  | InEscape acc pending =>
      if (code c =? 117)%Z then Some (InHex acc pending 4 0%Z, [])
      else
        match escape_char c with
        | Some z => Some (InString (String (byte z) (flush pending acc)) None, [])
        | None => None
        end
  | InHex acc pending remaining v =>
      match hex_digit c with
      | None => None
      | Some d =>
          let v' := (16 * v + d)%Z in
          match remaining with
          | S (S n) => Some (InHex acc pending (S n) v', [])
          | _ =>
              let '(acc', pending') := push_code_unit v' acc pending in
              Some (InString acc' pending', [])
          end
      end
  | InNumber a =>
      match number_step a c with
      | Some a' => Some (InNumber a', [])
      | None =>
          if num_accepting a then
            match idle_step c with
            | Some (m', ts) => Some (m', TNumber (num_literal a) :: ts)
            | None => None
            end
          else None
      end
  | InWord rest t =>
      match rest with
      | String x rest' =>
          if Ascii.eqb c x then
            match rest' with
            | EmptyString => Some (Idle, [t])
            | _ => Some (InWord rest' t, [])
            end
          else None
      | EmptyString => None
      end
  end.

Definition lex_end (m : mode) : option (list token) :=
  match m with
  | Idle => Some []
  | InNumber a => if num_accepting a then Some [TNumber (num_literal a)] else None
  | _ => None
  end.

Fixpoint lex (m : mode) (s : string) : option (list token) :=
  match s with
  | EmptyString => lex_end m
  | String c r =>
      match lex_step m c with
      | None => None
      | Some (m', ts) =>
          match lex m' r with
          | None => None
          | Some rest => Some (ts ++ rest)%list
          end
      end
  end.

(** *** Parser: one pass over the tokens with an explicit stack *)

(** An enclosing container that waits for the value being read. *)
Inductive frame : Type :=
| FArray (done : list jsvalue)
| FObject (done : list (string * jsvalue)) (key : string).

Inductive pstate : Type :=
| PValue (stack : list frame) (may_close : bool)
| PKey (done : list (string * jsvalue)) (stack : list frame) (may_close : bool)
| PColon (done : list (string * jsvalue)) (key : string) (stack : list frame)
| PAfter (v : jsvalue) (stack : list frame).

(** Defining a property that exists replaces its value (the last
    duplicate wins), otherwise the property is added. *)
Fixpoint define (key : string) (v : jsvalue) (members : list (string * jsvalue))
  : list (string * jsvalue) :=
  match members with
  | [] => [(key, v)]
  | (k, w) :: rest =>
      if String.eqb k key then (k, v) :: rest
      else (k, w) :: define key v rest
  end.

Definition scalar (t : token) : option jsvalue :=
  match t with
  | TString s => Some (JString s)
  | TNumber n => Some (JNumber n)
  | TTrue => Some (JBool true)
  | TFalse => Some (JBool false)
  | TNull => Some JNull
  | _ => None
  end.

Definition parse_step (p : pstate) (t : token) : option pstate :=
  match p with
  | PValue stack may_close =>
      match t with
      | TLBracket => Some (PValue (FArray [] :: stack) true)
      | TLBrace => Some (PKey [] stack true)
      | TRBracket =>
          match may_close, stack with
          | true, FArray done :: stack' =>
              Some (PAfter (JArray (List.rev done)) stack')
          | _, _ => None
          end
      | _ =>
          match scalar t with
          | Some v => Some (PAfter v stack)
          | None => None
          end
      end
  | PKey done stack may_close =>
      match t with
      | TString k => Some (PColon done k stack)
      | TRBrace => if may_close then Some (PAfter (JObject done) stack) else None
      | _ => None
      end
  | PColon done key stack =>
      match t with
      | TColon => Some (PValue (FObject done key :: stack) false)
      | _ => None
      end
  | PAfter v stack =>
      match stack, t with
      | FArray done :: stack', TComma =>
          Some (PValue (FArray (v :: done) :: stack') false)
      | FArray done :: stack', TRBracket =>
          Some (PAfter (JArray (List.rev (v :: done))) stack')
      | FObject done key :: stack', TComma =>
          Some (PKey (define key v done) stack' false)
      | FObject done key :: stack', TRBrace =>
          Some (PAfter (JObject (define key v done)) stack')
      | _, _ => None
      end
  end.

Fixpoint parse_tokens (p : pstate) (ts : list token) : option jsvalue :=
  match ts with
  | [] =>
      match p with
      | PAfter v [] => Some v
      | _ => None
      end
  | t :: ts' =>
      match parse_step p t with
      | Some p' => parse_tokens p' ts'
      | None => None
      end
  end.

(** [JSON.parse(text)]: the value, or a [SyntaxError]. *)
Definition parse (text : string) : completion jsvalue :=
  match lex Idle text with
  | None => Throw SyntaxError
  | Some ts =>
      match parse_tokens (PValue [] false) ts with
      | Some v => Normal v
      | None => Throw SyntaxError
      end
  end.

End JSON.

(** ** The JavaScript operations [onParse] and [main] apply to parsed values *)

Module JS.

Fixpoint lookup (name : string) (members : list (string * jsvalue))
  : option jsvalue :=
  match members with
  | [] => None
  | (k, v) :: rest => if String.eqb k name then Some v else lookup name rest
  end.

(** [base.name] for a [base] that is neither [undefined] nor [null], and a
    [name] that no built-in prototype defines ([choices], [delta],
    [content], [message]): only an object can have it, as an own
    property. *)
Definition get (base : jsvalue) (name : string) : option jsvalue :=
  match base with
  | JObject members => lookup name members
  | _ => None
  end.

(** [base[0]] for a [base] that is neither [undefined] nor [null]: the
    first element of an array, the first character of a string (kept here
    as its first byte; the callers only read a property of it, and a
    string has none of those they ask for), the property [0] of an
    object. *)
Definition get0 (base : jsvalue) : option jsvalue :=
  match base with
  | JArray elements => nth_error elements 0
  | JString (String c _) => Some (JString (String c EmptyString))
  | JObject members => lookup "0" members
  | _ => None
  end.

(** Reading a property of [undefined] or [null] throws a [TypeError]. *)
Definition member (base : option jsvalue) (name : string)
  : completion (option jsvalue) :=
  match base with
  | None | Some JNull => Throw TypeError
  | Some b => Normal (get b name)
  end.

Definition element0 (base : option jsvalue) : completion (option jsvalue) :=
  match base with
  | None | Some JNull => Throw TypeError
  | Some b => Normal (get0 b)
  end.

(** [base?.name]: [undefined] when [base] is [undefined] or [null]. *)
Definition optional_member (base : option jsvalue) (name : string)
  : option jsvalue :=
  match base with
  | None | Some JNull => None
  | Some b => get b name
  end.

(** [ToBoolean]. *)
Definition truthy (v : option jsvalue) : bool :=
  match v with
  | None | Some JNull => false
  | Some (JBool b) => b
  | Some (JNumber n) => Number.truthy n
  | Some (JString s) => negb (String.eqb s EmptyString)
  | Some (JArray _) | Some (JObject _) => true
  end.

(** [v || s] with the empty string for [s]. *)
Definition or_empty (v : option jsvalue) : jsvalue :=
  match v with
  | Some x => if truthy v then x else JString EmptyString
  | None => JString EmptyString
  end.

Definition has_own (name : string) (members : list (string * jsvalue)) : bool :=
  match lookup name members with
  | Some _ => true
  | None => false
  end.

(** [ToString].  An array prints as its elements joined by commas, with
    [null] elements empty.  A plain object prints as [[object Object]];
    an own property [toString] hides the inherited method and, not being
    callable, makes the conversion throw. *)
Fixpoint ToString (v : jsvalue) : completion string :=
  match v with
  | JNull => Normal "null"
  | JBool true => Normal "true"
  | JBool false => Normal "false"
  | JNumber n => Normal (Number.toString n)
  | JString s => Normal s
  | JArray elements =>
      (fix join (l : list jsvalue) : completion string :=
         match l with
         | [] => Normal EmptyString
         | x :: rest =>
             cbind (match x with JNull => Normal EmptyString | _ => ToString x end)
               (fun s =>
                  match rest with
                  | [] => Normal s
                  | _ => cbind (join rest) (fun r => Normal (s ++ "," ++ r))
                  end)
         end) elements
  | JObject members =>
      if has_own "toString" members then Throw TypeError
      else Normal "[object Object]"
  end.

(** [(text.match(/\n/) || []).length], as a truth value.  Only a string has
    a callable [match]. *)
Definition match_newline (text : jsvalue) : completion bool :=
  match text with
  | JString s => Normal (Str.contains_newline s)
  | _ => Throw TypeError
  end.

(** [TextEncoder] takes its argument as a sequence of scalar values.  In
    the byte form of a string a surrogate code unit takes three bytes:
    237, then a byte from 160 to 175 for a high surrogate or from 176 to
    191 for a low one, then a third byte. *)
Definition high (a b : ascii) : bool :=
  let y := nat_of_ascii b in
  ((nat_of_ascii a =? 237) && (160 <=? y) && (y <=? 175))%nat.

Definition low (a b : ascii) : bool :=
  let y := nat_of_ascii b in
  ((nat_of_ascii a =? 237) && (176 <=? y) && (y <=? 191))%nat.

(** U+FFFD in UTF-8. *)
Definition REPLACEMENT : string :=
  String (ascii_of_nat 239)
    (String (ascii_of_nat 191) (String (ascii_of_nat 189) EmptyString)).

(** The four bytes of the code point of a pair, from the last two bytes
    [b c] of its high half and [e f] of its low half. *)
Definition pair (b c e f : ascii) : string :=
  let ten (x y : ascii) :=
    ((JSON.code x mod 16) * 64 + JSON.code y mod 64)%Z in
  Str.rev
    (JSON.push_code_point (65536 + ten b c * 1024 + ten e f)%Z EmptyString).

(** The UTF-8 encoding of a string: a high surrogate followed by a low one
    is the code point of the pair, any other surrogate is replaced by
    U+FFFD, and the rest is UTF-8 already. *)
Fixpoint to_utf8 (s : string) : string :=
  match s with
  | EmptyString => EmptyString
  | String a tail =>
      match tail with
      | String b (String c rest) =>
          if high a b then
            match rest with
            | String d (String e (String f rest')) =>
                if low d e then pair b c e f ++ to_utf8 rest'
                else REPLACEMENT ++ to_utf8 rest
            | _ => REPLACEMENT ++ to_utf8 rest
            end
          else if low a b then REPLACEMENT ++ to_utf8 rest
          else String a (to_utf8 tail)
      | _ => String a (to_utf8 tail)
      end
  end.

(** [encoder.encode(text)]: the UTF-8 bytes of [ToString(text)]. *)
Definition encode (text : jsvalue) : completion string :=
  cbind (ToString text) (fun str => Normal (to_utf8 str)).

End JS.

(** ** The output stream: a [ReadableStream] with its default controller *)

(** After the Streams standard: the state of the stream, the
    [closeRequested] flag and the queue of the default controller, with the
    operations [ReadableStreamDefaultControllerEnqueue], [...Close],
    [...Error] and the pull of a reader. *)
Module Stream.

Inductive state : Type :=
| readable
| closed
| errored (e : exn).

(** [queue] holds the chunks enqueued and not yet read. *)
Record controller : Type := {
  state_of : state;
  closeRequested : bool;
  queue : list string
}.

Definition fresh : controller :=
  {| state_of := readable; closeRequested := false; queue := [] |}.

Definition canCloseOrEnqueue (c : controller) : bool :=
  match state_of c with
  | readable => negb (closeRequested c)
  | _ => false
  end.

(** [controller.enqueue(chunk)]. *)
Definition enqueue (chunk : string) (c : controller) : completion controller :=
  if canCloseOrEnqueue c then
    Normal {| state_of := readable; closeRequested := false;
              queue := (queue c ++ [chunk])%list |}
  else Throw TypeError.

(** [controller.close()]: the stream closes at once when nothing is queued,
    otherwise when the last queued chunk is read. *)
Definition close (c : controller) : completion controller :=
  if canCloseOrEnqueue c then
    Normal {| state_of := match queue c with [] => closed | _ => readable end;
              closeRequested := true;
              queue := queue c |}
  else Throw TypeError.

(** [controller.error(e)]: no effect unless the stream is readable; drops
    what is queued. *)
Definition error (e : exn) (c : controller) : controller :=
  match state_of c with
  | readable =>
      {| state_of := errored e; closeRequested := closeRequested c;
         queue := [] |}
  | _ => c
  end.

(** One [read()] of the consumer: the chunk delivered, if any. *)
Definition read (c : controller) : controller * option string :=
  match state_of c, queue c with
  | readable, chunk :: rest =>
      ({| state_of := match rest with
                      | [] => if closeRequested c then closed else readable
                      | _ => readable
                      end;
          closeRequested := closeRequested c;
          queue := rest |},
       Some chunk)
  | _, _ => (c, None)
  end.

End Stream.

(** ** [OpenAIStream]: the closure state and the [onParse] callback *)

(** What the SSE parser hands to its callback: an event proper has the
    type ["event"] and carries the payload in [data]; the parser also
    reports ["reconnect-interval"] items. *)
Module SSE.

Record event : Type := {
  type : string;
  data : string
}.

End SSE.

(** The variables [onParse] closes over (lines 275-277 and the controller
    of the stream), followed by the record of what it did to the outside:
    the arguments of each [logger] call and the chunks the controller
    accepted. *)
Record closure : Type := {
  counter : nat;
  data : jsvalue;
  response : string;
  controller : Stream.controller;
  logged : list (string * jsvalue);
  emitted : list string
}.

(** [counter] starts at 0, [data] as the empty object, [response] as the
    empty string, and the stream is new. *)
Definition initial : closure :=
  {| counter := 0;
     data := JObject [];
     response := EmptyString;
     controller := Stream.fresh;
     logged := [];
     emitted := [] |}.

(** A computation over the closure that may throw. *)
Definition M (A : Type) : Type := closure -> closure * completion A.

Definition ret {A : Type} (a : A) : M A := fun s => (s, Normal a).

Definition bind {A B : Type} (m : M A) (k : A -> M B) : M B :=
  fun s =>
    match m s with
    | (s', Normal a) => k a s'
    | (s', Throw e) => (s', Throw e)
    end.

Definition lift {A : Type} (c : completion A) : M A := fun s => (s, c).

(** [try { body } catch (e) { handler(e) }]: what [body] did to the state
    before it threw stays done. *)
Definition try_catch {A : Type} (body : M A) (handler : exn -> M A) : M A :=
  fun s =>
    match body s with
    | (s', Normal a) => (s', Normal a)
    | (s', Throw e) => handler e s'
    end.

Declare Scope js_scope.
Delimit Scope js_scope with js.
Notation "x <- m ;; k" := (bind m (fun x => k))
  (at level 61, m at next level, right associativity) : js_scope.
Notation "m ;; k" := (bind m (fun _ => k))
  (at level 61, right associativity) : js_scope.

Definition get_counter : M nat := fun s => (s, Normal (counter s)).

(** [counter++] *)
Definition increment_counter : M unit :=
  fun s =>
    ({| counter := S (counter s); data := data s; response := response s;
        controller := controller s; logged := logged s;
        emitted := emitted s |}, Normal tt).

(** [data = json] *)
Definition set_data (json : jsvalue) : M unit :=
  fun s =>
    ({| counter := counter s; data := json; response := response s;
        controller := controller s; logged := logged s;
        emitted := emitted s |}, Normal tt).

(** [response += text] *)
Definition append_response (text : jsvalue) : M unit :=
  fun s =>
    match JS.ToString text with
    | Normal str =>
        ({| counter := counter s; data := data s;
            response := response s ++ str;
            controller := controller s; logged := logged s;
            emitted := emitted s |}, Normal tt)
    | Throw e => (s, Throw e)
    end.

Definition with_controller (c : Stream.controller) (s : closure) : closure :=
  {| counter := counter s; data := data s; response := response s;
     controller := c; logged := logged s; emitted := emitted s |}.

(** [logger({ response, data })] *)
Definition call_logger : M unit :=
  fun s =>
    ({| counter := counter s; data := data s; response := response s;
        controller := controller s;
        logged := (logged s ++ [(response s, data s)])%list;
        emitted := emitted s |}, Normal tt).

(** [controller.close()] *)
Definition controller_close : M unit :=
  fun s =>
    match Stream.close (controller s) with
    | Normal c => (with_controller c s, Normal tt)
    | Throw e => (s, Throw e)
    end.

(** [controller.enqueue(queue)] *)
Definition controller_enqueue (queue : string) : M unit :=
  fun s =>
    match Stream.enqueue queue (controller s) with
    | Normal c =>
        ({| counter := counter s; data := data s; response := response s;
            controller := c; logged := logged s;
            emitted := (emitted s ++ [queue])%list |}, Normal tt)
    | Throw e => (s, Throw e)
    end.

(** [controller.error(e)] *)
Definition controller_error (e : exn) : M unit :=
  fun s => (with_controller (Stream.error e (controller s)) s, Normal tt).

(** [json.choices[0].delta?.content], or the empty string if that is
    falsy. *)
Definition extract_text (json : jsvalue) : completion jsvalue :=
  cbind (JS.member (Some json) "choices") (fun choices =>
  cbind (JS.element0 choices) (fun choice =>
  cbind (JS.member choice "delta") (fun delta =>
  Normal (JS.or_empty (JS.optional_member delta "content"))))).

Definition DONE : string := "[DONE]".

Local Open Scope js_scope.

(** [counter < 2 && (text.match(/\n/) || []).length]: the right operand
    is only evaluated while the counter is below 2. *)
Definition suppress (text : jsvalue) : M bool :=
  c <- get_counter ;;
  if (c <? 2)%nat then lift (JS.match_newline text) else ret false.

(** [onParse] (lines 287-315).  The call [logger] and the call
    [controller.close()] of the sentinel branch stand outside the [try]
    block; what [close] throws leaves the function. *)
Definition onParse (event : SSE.event) : M unit :=
  if String.eqb (SSE.type event) "event" then
    let eventData := SSE.data event in
    if String.eqb eventData DONE then
      call_logger ;;
      controller_close
    else
      try_catch
        (json <- lift (JSON.parse eventData) ;;
         text <- lift (extract_text json) ;;
         append_response text ;;
         set_data json ;;
         hit <- suppress text ;;
         if (hit : bool) then ret tt
         else
           queue <- lift (JS.encode text) ;;
           controller_enqueue queue ;;
           increment_counter)
        controller_error
  else ret tt.

Local Close Scope js_scope.

(** ** Running a stream

    [start] (lines 285-322) feeds the parser, which calls [onParse] once
    per event, in order; [main] (lines 127-131) reads the stream and writes
    each chunk to standard output.  The two are interleaved by the
    scheduler, so a run is a list of actions. *)

Inductive action : Type :=
| Feed (event : SSE.event)
| Read.

Record process : Type := {
  reducer : closure;
  rejected : option exn;      (* [start] ended by an exception *)
  stdout : list string        (* chunks passed to [process.stdout.write] *)
}.

Definition boot : process :=
  {| reducer := initial; rejected := None; stdout := [] |}.

(** An exception that leaves [onParse] leaves [parser.feed] and the loop of
    [start]: no later event is parsed, and the stream is errored with it
    if still readable.  A read takes the oldest queued chunk, if there is
    one, and writes it out.  What the process does once the reading loop
    of [main] has failed is not modelled: the events of a network chunk
    are handled back to back before that failure can surface. *)
Definition step (a : action) (p : process) : process :=
  match a with
  | Feed event =>
      match rejected p with
      | Some _ => p
      | None =>
          match onParse event (reducer p) with
          | (s, Normal _) =>
              {| reducer := s; rejected := None; stdout := stdout p |}
          | (s, Throw e) =>
              {| reducer := with_controller (Stream.error e (controller s)) s;
                 rejected := Some e;
                 stdout := stdout p |}
          end
      end
  | Read =>
      match Stream.read (controller (reducer p)) with
      | (c, Some chunk) =>
          {| reducer := with_controller c (reducer p);
             rejected := rejected p;
             stdout := (stdout p ++ [chunk])%list |}
      | (_, None) => p
      end
  end.

Fixpoint run (acts : list action) (p : process) : process :=
  match acts with
  | [] => p
  | a :: rest => run rest (step a p)
  end.

(** Feeding events with no read in between, as one [parser.feed] call does
    for the events of one network chunk. *)
Definition feed (events : list SSE.event) (p : process) : process :=
  run (map Feed events) p.

(** ** [main]: options, the [logger] closure, the non-streaming branch *)

(** [program.opts()], as far as [main] reads it. *)
Record options : Type := {
  code : bool;
  log : bool;
  system : option string;
  gpt4 : bool
}.

Definition CODE_SYSTEM_PROMPT : string :=
  "You are an expert code generating tool. Return just the code, with no explanation"
  ++ String Str.LF
  "or context. The code has to be well commented.".

Definition model_of (args : options) : string :=
  if gpt4 args then "gpt-4" else "gpt-3.5-turbo".

(** The default system text up to the date. *)
Definition DEFAULT_SYSTEM_PROMPT : string :=
  "You are ChatGPT, a large language model trained by OpenAI. "
  ++ "Answer as concisely as possible. "
  ++ "Knowledge cutoff: 2021-09-01. Current date: ".

(** The system text; [today] is [new Date().toISOString().slice(0, 10)].
    An empty [--system] is falsy and gives the default.  [main] exits
    before this point when both [--code] and [--system] are given. *)
Definition system_of (args : options) (today : string) : string :=
  if code args then CODE_SYSTEM_PROMPT
  else
    match system args with
    | Some (String c rest) => String c rest
    | _ => DEFAULT_SYSTEM_PROMPT ++ today
    end.

(** The argument of one call of [log]. *)
Record log_entry : Type := {
  entry_prompt : string;
  entry_model : string;
  entry_system : string;
  entry_response : string;
  entry_data : jsvalue
}.

(** [logger] (lines 87-97): the calls of [log] that one call
    [logger({response, data})] makes. *)
Definition logger (args : options) (expandedPrompt today : string)
  (call : string * jsvalue) : list log_entry :=
  if log args then
    [ {| entry_prompt := expandedPrompt;
         entry_model := model_of args;
         entry_system := system_of args today;
         entry_response := fst call;
         entry_data := snd call |} ]
  else [].

(** [unwrapMarkdown] (lines 243-252): after [shift] the array may be
    empty, and then [lines[lines.length - 1]] is [undefined]. *)
Definition unwrapMarkdown (content : string) : completion string :=
  let lines := Str.split_lines content in
  let lines :=
    match lines with
    | first :: rest =>
        if Str.starts_with "```" (Str.trim first) then rest else lines
    | [] => lines
    end in
  match List.rev lines with
  | [] => Throw TypeError
  | final :: _ =>
      Normal (Str.join_lines
                (if String.eqb (Str.trim final) "```" then removelast lines
                 else lines))
  end.

(** [data.choices[0].message.content.trim()] *)
Definition response_of (data : jsvalue) : completion string :=
  cbind (JS.member (Some data) "choices") (fun choices =>
  cbind (JS.element0 choices) (fun choice =>
  cbind (JS.member choice "message") (fun message =>
  cbind (JS.member message "content") (fun content =>
  match content with
  | Some (JString s) => Normal (Str.trim s)
  | _ => Throw TypeError
  end)))).

(** What the non-streaming branch did: the arguments of its [logger]
    calls, the arguments of its [console.log] calls, and how it ended. *)
Record oneshot : Type := {
  logger_calls : list (string * jsvalue);
  console : list string;
  outcome : completion unit
}.

(** The argument of the final [console.log]: the response itself, or with
    [--code] the unwrapped response between a line feed and two. *)
Definition display (args : options) (response : string) : completion string :=
  if code args then
    cbind (unwrapMarkdown response) (fun unwrapped =>
    Normal (String Str.LF unwrapped
            ++ String Str.LF (String Str.LF EmptyString)))
  else Normal response.

(** The [else] branch of [main] (lines 132-153), from the text of the
    reply body on: [res.json()], the response, the [logger] call, the
    display. *)
Definition main_oneshot (args : options) (body : string) : oneshot :=
  match JSON.parse body with
  | Throw e => {| logger_calls := []; console := []; outcome := Throw e |}
  | Normal data =>
      match response_of data with
      | Throw e => {| logger_calls := []; console := []; outcome := Throw e |}
      | Normal response =>
          match display args response with
          | Throw e =>
              {| logger_calls := [(response, data)]; console := [];
                 outcome := Throw e |}
          | Normal shown =>
              {| logger_calls := [(response, data)]; console := [shown];
                 outcome := Normal tt |}
          end
      end
  end.

(** ** [parsePrompt]: placeholders and the files they name

    [parsePrompt] (lines 255-269) runs the regular expression
    [{{[ ]?f([^}]+)}}] with the global flag over the prompt and, for each
    match, replaces the matched text in [newPrompt] by the trimmed content
    of the file the capture names. *)

Module Prompt.

(** The longest run of characters other than the closing brace, and what
    follows it: the greedy [[^}]+]. *)
Fixpoint span_capture (s : string) : string * string :=
  match s with
  | EmptyString => (EmptyString, EmptyString)
  | String c rest =>
      if Ascii.eqb c "}" then (EmptyString, s)
      else
        let (run, tail) := span_capture rest in
        (String c run, tail)
  end.

(** The regular expression matched at the start of [s]: the text matched,
    the capture, and the rest of [s].  Backtracking finds nothing that the
    greedy choices miss: without the optional space the next character has
    to be [f], and a shorter capture is followed by a character that is
    not a closing brace. *)
Definition match_here (s : string) : option (string * string * string) :=
  match s with
  | String a (String b r) =>
      if (Ascii.eqb a "{" && Ascii.eqb b "{")%bool then
        let (space, r1) :=
          match r with
          | String c r' =>
              if Ascii.eqb c " " then (" ", r') else (EmptyString, r)
          | EmptyString => (EmptyString, r)
          end in
        match r1 with
        | String f r2 =>
            if Ascii.eqb f "f" then
              match span_capture r2 with
              | (String c run, String x (String y rest)) =>
                  if (Ascii.eqb x "}" && Ascii.eqb y "}")%bool then
                    Some ("{{" ++ space ++ "f" ++ String c run ++ "}}",
                          String c run, rest)
                  else None
              | _ => None
              end
            else None
        | EmptyString => None
        end
      else None
  | _ => None
  end.

(** The matches that the [while] loop of [regex.exec] visits, each with its
    capture: the leftmost match from [lastIndex] on, which then moves to
    the end of the match.  [skip] counts the characters still inside the
    last match. *)
Fixpoint scan (skip : nat) (s : string) : list (string * string) :=
  match s with
  | EmptyString => []
  | String _ rest =>
      match skip with
      | S k => scan k rest
      | O =>
          match match_here s with
          | Some (matched, capture, _) =>
              (matched, capture) :: scan (String.length matched - 1) rest
          | None => scan 0 rest
          end
      end
  end.

(** The first occurrence of [search] in [str]: what precedes and what
    follows it. *)
Fixpoint find (search str : string) : option (string * string) :=
  match Str.strip_prefix search str with
  | Some following => Some (EmptyString, following)
  | None =>
      match str with
      | EmptyString => None
      | String c rest =>
          match find search rest with
          | Some (preceding, following) => Some (String c preceding, following)
          | None => None
          end
      end
  end.

(** The replacement text of [String.prototype.replace] for a string
    pattern ([GetSubstitution] with no captures): a dollar sign doubles as
    an escape for itself, for the matched text, and for what precedes and
    what follows the match; any other dollar sign stands for itself. *)
Fixpoint substitute (matched preceding following template : string)
  : string :=
  match template with
  | EmptyString => EmptyString
  | String a t =>
      if Ascii.eqb a "$" then
        match t with
        | EmptyString => String a EmptyString
        | String c r =>
            if Ascii.eqb c "$" then
              String "$" (substitute matched preceding following r)
            else if Ascii.eqb c "&" then
              matched ++ substitute matched preceding following r
            else if Ascii.eqb c "`" then
              preceding ++ substitute matched preceding following r
            else if Ascii.eqb c "'" then
              following ++ substitute matched preceding following r
            else String a (substitute matched preceding following t)
        end
      else String a (substitute matched preceding following t)
  end.

(** [str.replace(search, replacement)] with two strings: the first
    occurrence only. *)
Definition replace (search replacement str : string) : string :=
  match find search str with
  | None => str
  | Some (preceding, following) =>
      preceding
      ++ substitute search preceding following replacement
      ++ following
  end.

(** What a path leads to, as far as [existsSync] and [readFileSync] tell:
    a file with its text, or something that exists and cannot be read as a
    file. *)
Inductive node : Type :=
| File (content : string)
| Directory.

Definition filesystem : Type := string -> option node.

(** How [parsePrompt] can fail: by its own [Error] for a missing file, or
    by the error [readFileSync] throws. *)
Inductive failure : Type :=
| FileNotFound (filePath : string)
| ReadFailed (filePath : string).

(** The body of the loop, over the matches in order. *)
Fixpoint expand (fs : filesystem) (matches : list (string * string))
  (newPrompt : string) : failure + string :=
  match matches with
  | [] => inr newPrompt
  | (matched, capture) :: rest =>
      let filePath := Str.trim capture in
      match fs filePath with
      | Some (File content) =>
          expand fs rest (replace matched (Str.trim content) newPrompt)
      | Some Directory => inl (ReadFailed filePath)
      | None => inl (FileNotFound filePath)
      end
  end.

Definition parsePrompt (fs : filesystem) (prompt : string)
  : failure + string :=
  expand fs (scan 0 prompt) prompt.

End Prompt.

(** ** [path.join], as on a POSIX system *)

Module Path.

(** The pieces of a path between its slashes. *)
Fixpoint split (s : string) : list string :=
  match s with
  | EmptyString => [EmptyString]
  | String c rest =>
      if Ascii.eqb c "/" then EmptyString :: split rest
      else
        match split rest with
        | [] => [String c EmptyString]
        | piece :: pieces => String c piece :: pieces
        end
  end.

(** [normalizeString]: empty pieces and single dots go, a double dot takes
    the piece before it away, or stays when there is none to take and the
    path is relative.  [kept] is the result so far, last piece first. *)
Fixpoint resolve (allowAboveRoot : bool) (kept pieces : list string)
  : list string :=
  match pieces with
  | [] => List.rev kept
  | piece :: rest =>
      if (String.eqb piece EmptyString || String.eqb piece ".")%bool then
        resolve allowAboveRoot kept rest
      else if String.eqb piece ".." then
        match kept with
        | top :: below =>
            if String.eqb top ".." then
              resolve allowAboveRoot
                (if allowAboveRoot then piece :: kept else kept) rest
            else resolve allowAboveRoot below rest
        | [] =>
            resolve allowAboveRoot
              (if allowAboveRoot then [piece] else []) rest
        end
      else resolve allowAboveRoot (piece :: kept) rest
  end.

Fixpoint glue (pieces : list string) : string :=
  match pieces with
  | [] => EmptyString
  | [piece] => piece
  | piece :: rest => piece ++ "/" ++ glue rest
  end.

Definition ends_with_slash (s : string) : bool :=
  match Str.rev s with
  | String c _ => Ascii.eqb c "/"
  | EmptyString => false
  end.

(** [path.normalize]. *)
Definition normalize (path : string) : string :=
  match path with
  | EmptyString => "."
  | String c _ =>
      let isAbsolute := Ascii.eqb c "/" in
      let trailingSeparator := ends_with_slash path in
      let body := glue (resolve (negb isAbsolute) [] (split path)) in
      match body with
      | EmptyString =>
          if isAbsolute then "/"
          else if trailingSeparator then "./" else "."
      | _ =>
          (if isAbsolute then "/" else EmptyString)
          ++ body
          ++ (if trailingSeparator then "/" else EmptyString)
      end
  end.

(** The non-empty arguments, with a slash between them. *)
Fixpoint joined (args : list string) : option string :=
  match args with
  | [] => None
  | arg :: rest =>
      match arg, joined rest with
      | EmptyString, j => j
      | _, None => Some arg
      | _, Some j => Some (arg ++ "/" ++ j)
      end
  end.

(** [path.join(...args)], for arguments that are strings. *)
Definition join (args : list string) : string :=
  match joined args with
  | None => "."
  | Some path => normalize path
  end.

End Path.

(** ** [main]: from the command line to the request (lines 19-125) *)

Module CLI.

(** [process.env], as far as the program reads it. *)
Record environment : Type := {
  OPENAI_API_KEY : option string;
  HOME : option string;
  OPENAI_API_ORG : option string
}.

(** The parsed options: those the claims use, and the two others. *)
Record arguments : Type := {
  opts : options;
  stream : bool;
  model : option string
}.

Record message : Type := {
  role : string;
  content : string
}.

(** What is handed to [fetch]: the headers, and the object that
    [JSON.stringify] turns into the body. *)
Record request : Type := {
  headers : list (string * string);
  payload_model : string;
  payload_messages : list message;
  payload_stream : bool
}.

(** What stops [main] before the request. *)
Inductive uncaught : Type :=
| ReferenceError (name : string)
| PromptError (failure : Prompt.failure)
| PathTypeError
| KeyReadError (keyPath : string).

Inductive ending : Type :=
| Exited (status : nat)
| Uncaught (error : uncaught)
| Requested (r : request).

(** The arguments of the [console.log] and [console.error] calls, in
    order, and how this part of [main] ends. *)
Record prelude : Type := {
  console_log : list string;
  console_error : list string;
  ending_of : ending
}.

(** [prompt.join(" ")] *)
Fixpoint join_words (prompt : list string) : string :=
  match prompt with
  | [] => EmptyString
  | [word] => word
  | word :: rest => word ++ " " ++ join_words rest
  end.

(** [readFromStdin] (lines 187-193), from the text on standard input. *)
Definition readFromStdin (stdin : string) : string := Str.trim stdin.

(** The prompt before expansion: the words, or standard input when there
    are none. *)
Definition final_prompt (prompt : list string) (stdin : string) : string :=
  match prompt with
  | [] => readFromStdin stdin
  | _ => join_words prompt
  end.

(** The result of [getOpenaiApiKey]. *)
Inductive credential : Type :=
| Key (key : string)
| NoKey
| KeyFailure (error : uncaught).

Definition KEY_FILE : string := ".openai-api-key.txt".

(** [getOpenaiApiKey] (lines 195-209).  An empty variable is falsy and
    counts as unset; [path.join] throws when [HOME] is [undefined]. *)
Definition getOpenaiApiKey (env : environment) (fs : Prompt.filesystem)
  : credential :=
  match OPENAI_API_KEY env with
  | Some (String c key) => Key (String c key)
  | _ =>
      match HOME env with
      | None => KeyFailure PathTypeError
      | Some home =>
          let keyPath := Path.join [home; KEY_FILE] in
          match fs keyPath with
          | Some (Prompt.File text) => Key (Str.trim text)
          | Some Prompt.Directory => KeyFailure (KeyReadError keyPath)
          | None => NoKey
          end
      end
  end.

(** [getLogDbPath] (lines 211-213), for a [HOME] that is set. *)
Definition getLogDbPath (home : string) : string :=
  Path.join [home; ".local/share/llm"; "log.db"].

Definition NO_KEY_MESSAGE : string :=
  "There is no OpenAI API key detected. To proceed, either configure "
  ++ "the OPENAI_API_KEY environment variable or generate a "
  ++ "~/.openai-api-key.txt file.".

Definition CONFLICT_MESSAGE : string :=
  "Can't use --code and --system together".

(** The hourglass of the loading line, as its three UTF-8 bytes. *)
Definition HOURGLASS : string :=
  String (ascii_of_nat 226)
    (String (ascii_of_nat 143) (String (ascii_of_nat 179) EmptyString)).

Definition loading (finalPrompt : string) (expanded : bool) : string :=
  String Str.LF (" " ++ HOURGLASS ++ " loading prompt: " ++ finalPrompt)
  ++ (if expanded then " (expanded)" else EmptyString)
  ++ String Str.LF (String Str.LF EmptyString).

Definition given (value : option string) : bool :=
  match value with
  | Some (String _ _) => true
  | _ => false
  end.

(** The action of the default command, up to the call of [fetch].  The
    function [parse] called for an empty prompt is defined nowhere in the
    module, so that call throws before the message and the exit that
    follow it. *)
Definition main (args : arguments) (prompt : list string) (stdin : string)
  (env : environment) (fs : Prompt.filesystem) (today : string) : prelude :=
  let finalPrompt := final_prompt prompt stdin in
  if String.eqb finalPrompt EmptyString then
    {| console_log := []; console_error := [];
       ending_of := Uncaught (ReferenceError "parse") |}
  else
    match Prompt.parsePrompt fs finalPrompt with
    | inl failure =>
        {| console_log := []; console_error := [];
           ending_of := Uncaught (PromptError failure) |}
    | inr expandedPrompt =>
        if (code (opts args) && given (system (opts args)))%bool then
          {| console_log := []; console_error := [CONFLICT_MESSAGE];
             ending_of := Exited 1 |}
        else
          let messages :=
            [ {| role := "system";
                 content := system_of (opts args) today |};
              {| role := "user"; content := expandedPrompt |} ] in
          let shown :=
            [loading finalPrompt
               (negb (String.eqb expandedPrompt finalPrompt))] in
          match getOpenaiApiKey env fs with
          | NoKey =>
              {| console_log := shown; console_error := [NO_KEY_MESSAGE];
                 ending_of := Exited 1 |}
          | KeyFailure error =>
              {| console_log := shown; console_error := [];
                 ending_of := Uncaught error |}
          | Key key =>
              {| console_log := shown; console_error := [];
                 ending_of :=
                   Requested
                     {| headers :=
                          ([("Content-Type", "application/json");
                            ("Authorization", ("Bearer " ++ key)%string)]
                           ++ (if given (OPENAI_API_ORG env) then
                                 match OPENAI_API_ORG env with
                                 | Some org => [("OpenAI-Organization", org)]
                                 | None => []
                                 end
                               else []))%list;
                        payload_model := model_of (opts args);
                        payload_messages := messages;
                        payload_stream := stream args |} |}
          end
    end.

End CLI.

(** ** Vocabulary of the specification *)

(** The stream is in the STREAMING state of the specification while the
    controller still accepts [enqueue] and [close]. *)
Definition streaming (s : closure) : Prop :=
  Stream.canCloseOrEnqueue (controller s) = true.

Definition is_event (event : SSE.event) : bool :=
  String.eqb (SSE.type event) "event".

(** An event whose payload is the termination sentinel. *)
Definition is_sentinel (event : SSE.event) : bool :=
  is_event event && String.eqb (SSE.data event) DONE.

Definition sentinel : SSE.event := {| SSE.type := "event"; SSE.data := DONE |}.

(** An event with the given payload. *)
Definition payload (text : string) : SSE.event :=
  {| SSE.type := "event"; SSE.data := text |}.

(** The three values the [try] block computes before it touches the
    closure: the parsed object, the extracted [text], and the string that
    [response += text] appends. *)
Definition analyse (eventData : string)
  : completion (jsvalue * jsvalue * string) :=
  cbind (JSON.parse eventData) (fun json =>
  cbind (extract_text json) (fun text =>
  cbind (JS.ToString text) (fun str =>
  Normal (json, text, str)))).

(** The text fragment an event contributes to the response: the empty
    string for a sentinel, for an item that is not an event, and for a
    payload from which no fragment could be taken. *)
Definition fragment (event : SSE.event) : string :=
  if is_event event && negb (String.eqb (SSE.data event) DONE) then
    match analyse (SSE.data event) with
    | Normal (_, _, str) => str
    | Throw _ => EmptyString
    end
  else EmptyString.

(** The concatenation of a list of strings, in order. *)
Fixpoint concat_all (l : list string) : string :=
  match l with
  | [] => EmptyString
  | x :: rest => x ++ concat_all rest
  end.

(** The events of a run, in arrival order. *)
Fixpoint events_of (acts : list action) : list SSE.event :=
  match acts with
  | [] => []
  | Feed event :: rest => event :: events_of rest
  | Read :: rest => events_of rest
  end.

(** The events of a run that reach [onParse]: those fed before [start] is
    ended by an exception. *)
Fixpoint handled (acts : list action) (p : process) : list SSE.event :=
  match acts with
  | [] => []
  | a :: rest =>
      match a, rejected p with
      | Feed event, None => event :: handled rest (step a p)
      | _, _ => handled rest (step a p)
      end
  end.

(** The object of the last payload that [JSON.parse] accepted, [otherwise]
    if there is none. *)
Fixpoint last_parsed (otherwise : jsvalue) (events : list SSE.event)
  : jsvalue :=
  match events with
  | [] => otherwise
  | event :: rest =>
      last_parsed
        (if is_event event && negb (String.eqb (SSE.data event) DONE) then
           match JSON.parse (SSE.data event) with
           | Normal json => json
           | Throw _ => otherwise
           end
         else otherwise)
        rest
  end.

(** [carries event t]: the event is a non-sentinel event whose payload
    parses and whose extracted text is the string [t]. *)
Definition carries (event : SSE.event) (t : string) : Prop :=
  is_event event = true /\
  SSE.data event <> DONE /\
  exists json,
    JSON.parse (SSE.data event) = Normal json /\
    extract_text json = Normal (JString t).

(** The output-suppression policy in the words of the specification: with
    [n] fragments emitted so far, a fragment holding a line feed is dropped
    while [n < 2]; any other fragment is emitted and counted. *)
Fixpoint policy (n : nat) (fragments : list string) : list string :=
  match fragments with
  | [] => []
  | t :: rest =>
      if (n <? 2)%nat && Str.contains_newline t then policy n rest
      else t :: policy (S n) rest
  end.

(** A run of the code points [trim] strips; with [backwards], such a run
    read from its end. *)
Inductive spaces (backwards : bool) : string -> Prop :=
| spaces_empty : spaces backwards EmptyString
| spaces_1 a s :
    Str.ws1 a = true -> spaces backwards s -> spaces backwards (String a s)
| spaces_2 a b s :
    (if backwards then Str.ws2 b a else Str.ws2 a b) = true ->
    spaces backwards s ->
    spaces backwards (String a (String b s))
| spaces_3 a b c s :
    (if backwards then Str.ws3 c b a else Str.ws3 a b c) = true ->
    spaces backwards s ->
    spaces backwards (String a (String b (String c s))).

(** White space only. *)
Definition blank (s : string) : Prop := spaces false s.

(** Whether the string starts with a white-space code point; with
    [backwards], whether the reversed string ends with one. *)
Definition leading_space (backwards : bool) (s : string) : bool :=
  match s with
  | EmptyString => false
  | String a r1 =>
      Str.ws1 a
      || match r1 with
         | EmptyString => false
         | String b r2 =>
             (if backwards then Str.ws2 b a else Str.ws2 a b)
             || match r2 with
                | EmptyString => false
                | String c _ =>
                    if backwards then Str.ws3 c b a else Str.ws3 a b c
                end
         end
  end.

Definition starts_with_space (s : string) : bool := leading_space false s.

Definition ends_with_space (s : string) : bool :=
  leading_space true (Str.rev s).

(** [data.choices[0].message.content], when the chain of accesses does not
    throw. *)
Definition content_of (data : jsvalue) : completion (option jsvalue) :=
  cbind (JS.member (Some data) "choices") (fun choices =>
  cbind (JS.element0 choices) (fun choice =>
  cbind (JS.member choice "message") (fun message =>
  JS.member message "content"))).

(** [json.choices[0]], when the accesses do not throw. *)
Definition first_choice (json : jsvalue) : completion (option jsvalue) :=
  cbind (JS.member (Some json) "choices") JS.element0.

(** Whether the controller of a process still accepts [enqueue]. *)
Definition gate (p : process) : bool :=
  Stream.canCloseOrEnqueue (controller (reducer p)).

(** Two closures that differ at most in what is queued for the consumer:
    the variables and the records agree, and the controllers agree on
    whether they accept [enqueue]. *)
Definition alike (s s' : closure) : Prop :=
  counter s = counter s' /\
  data s = data s' /\
  response s = response s' /\
  logged s = logged s' /\
  emitted s = emitted s' /\
  Stream.canCloseOrEnqueue (controller s) =
  Stream.canCloseOrEnqueue (controller s').

Definition alike_process (p q : process) : Prop :=
  rejected p = rejected q /\ alike (reducer p) (reducer q).

(** *** Sample inputs *)

(** The payloads of the first end-to-end scenario of the specification. *)
Definition hello : SSE.event :=
  payload (Str.quoted "{'choices':[{'delta':{'content':'Hello'}}]}").

Definition world : SSE.event :=
  payload (Str.quoted "{'choices':[{'delta':{'content':' world'}}]}").

(** A payload whose fragment is one line feed, written as the JSON escape. *)
Definition newline : SSE.event :=
  payload (Str.quoted "{'choices':[{'delta':{'content':'\n'}}]}").

Definition ok : SSE.event :=
  payload (Str.quoted "{'choices':[{'delta':{'content':'ok'}}]}").

(** Options of a plain invocation: no [--code], logging on. *)
Definition plain : options :=
  {| code := false; log := true; system := None; gpt4 := false |}.

(** *** One step of a run, as seen from outside

    [moves a p p'] sorts what an action can do to the counter, the
    controller and the three records of a process: nothing, one chunk
    emitted, the stream errored, a sentinel handled, one chunk read. *)

(** The counter and the records of [p'] are those of [p]. *)
Definition unmoved (p p' : process) : Prop :=
  counter (reducer p') = counter (reducer p) /\
  emitted (reducer p') = emitted (reducer p) /\
  logged (reducer p') = logged (reducer p) /\
  stdout p' = stdout p.

Inductive moves : action -> process -> process -> Prop :=
| moves_keep a p p' :
    controller (reducer p') = controller (reducer p) ->
    unmoved p p' ->
    moves a p p'
| moves_emit event chunk p p' :
    is_sentinel event = false ->
    Stream.canCloseOrEnqueue (controller (reducer p)) = true ->
    controller (reducer p') =
    {| Stream.state_of := Stream.readable;
       Stream.closeRequested := false;
       Stream.queue := (Stream.queue (controller (reducer p)) ++ [chunk])%list |} ->
    counter (reducer p') = S (counter (reducer p)) ->
    emitted (reducer p') = (emitted (reducer p) ++ [chunk])%list ->
    ((counter (reducer p) < 2)%nat -> Str.contains_newline chunk = false) ->
    logged (reducer p') = logged (reducer p) ->
    stdout p' = stdout p ->
    moves (Feed event) p p'
| moves_fail event e p p' :
    is_sentinel event = false ->
    controller (reducer p') = Stream.error e (controller (reducer p)) ->
    unmoved p p' ->
    moves (Feed event) p p'
| moves_sentinel event p p' :
    is_sentinel event = true ->
    controller (reducer p') =
    match Stream.close (controller (reducer p)) with
    | Normal c => c
    | Throw e => Stream.error e (controller (reducer p))
    end ->
    counter (reducer p') = counter (reducer p) ->
    emitted (reducer p') = emitted (reducer p) ->
    logged (reducer p') =
    (logged (reducer p) ++ [(response (reducer p), data (reducer p))])%list ->
    stdout p' = stdout p ->
    moves (Feed event) p p'
| moves_read chunk p p' :
    Stream.read (controller (reducer p)) = (controller (reducer p'), Some chunk) ->
    counter (reducer p') = counter (reducer p) ->
    emitted (reducer p') = emitted (reducer p) ->
    logged (reducer p') = logged (reducer p) ->
    stdout p' = (stdout p ++ [chunk])%list ->
    moves Read p p'.

(** No chunk of the list holds a line feed. *)
Definition no_newlines (chunks : list string) : bool :=
  forallb (fun chunk => negb (Str.contains_newline chunk)) chunks.

(** No event of the list is a sentinel. *)
Definition no_sentinel (events : list SSE.event) : bool :=
  forallb (fun event => negb (is_sentinel event)) events.

(** The first and the last line of a text. *)
Definition first_line (text : string) : string :=
  hd EmptyString (Str.split_lines text).

Definition final_line (text : string) : string :=
  last (Str.split_lines text) EmptyString.

(** The character [c] does not occur in [s]. *)
Fixpoint lacks (c : ascii) (s : string) : bool :=
  match s with
  | EmptyString => true
  | String x rest => negb (Ascii.eqb x c) && lacks c rest
  end.

(** The text [needle] occurs somewhere in [s]. *)
Fixpoint mentions (needle s : string) : bool :=
  Str.starts_with needle s
  || match s with
     | EmptyString => false
     | String _ rest => mentions needle rest
     end.

(** No surrogate code unit in the text: it is a sequence of scalar values
    as it stands, and [TextEncoder] has nothing to replace. *)
Fixpoint scalar (s : string) : bool :=
  match s with
  | EmptyString => true
  | String a tail =>
      match tail with
      | String b _ => negb (JS.high a b || JS.low a b)
      | EmptyString => true
      end
      && scalar tail
  end.

(** No text of the list holds a surrogate. *)
Definition all_scalar (texts : list string) : bool := forallb scalar texts.

(** Whether an event carries a string fragment. *)
Definition carrying (event : SSE.event) : bool :=
  is_event event
  && negb (String.eqb (SSE.data event) DONE)
  && match analyse (SSE.data event) with
     | Normal (_, JString _, _) => true
     | _ => false
     end.

(** The position, in arrival order, of a fragment that comes after the
    given run: the number of events of the run that carry a fragment. *)
Definition position (acts : list action) : nat :=
  length (filter carrying (events_of acts)).

(** Payloads with a number as the fragment, with [null] as the first
    choice, and with a first choice that has no [delta]. *)
Definition five : SSE.event :=
  payload (Str.quoted "{'choices':[{'delta':{'content':5}}]}").

Definition null_choice : SSE.event :=
  payload (Str.quoted "{'choices':[null]}").

Definition bare_choice : SSE.event :=
  payload (Str.quoted "{'choices':[{}]}").

(** A placeholder as the prompt writes it: two opening braces, a space or
    none, the letter [f], the capture, two closing braces. *)
Definition placeholder (spaced : bool) (capture : string) : string :=
  "{{" ++ (if spaced then " " else EmptyString) ++ "f" ++ capture ++ "}}".

(** A file system with one file. *)
Definition notes : Prompt.filesystem :=
  fun filePath =>
    if String.eqb filePath "notes.txt"
    then Some (Prompt.File (" buy milk" ++ String Str.LF EmptyString))
    else None.

(** A file system with one file whose text holds a replacement pattern. *)
Definition bill : Prompt.filesystem :=
  fun filePath =>
    if String.eqb filePath "bill.txt"
    then Some (Prompt.File "cost: $& each")
    else None.

(** A piece of a path that [path.join] leaves alone: not empty, not a
    dot or two, without a slash. *)
Definition ordinary (piece : string) : bool :=
  negb (String.eqb piece EmptyString)
  && negb (String.eqb piece ".")
  && negb (String.eqb piece "..")
  && lacks "/" piece.

(** The absolute path made of the given pieces. *)
Definition absolute (pieces : list string) : string :=
  "/" ++ Path.glue pieces.

(** Whether every word is free of opening braces. *)
Definition braceless (words : list string) : bool :=
  forallb (lacks "{") words.

(** Sample command lines and environments. *)
Definition bare : CLI.arguments :=
  {| CLI.opts := plain; CLI.stream := false; CLI.model := Some "gpt-4o" |}.

Definition torn : CLI.arguments :=
  {| CLI.opts :=
       {| code := true; log := true; system := Some "Be brief";
          gpt4 := false |};
     CLI.stream := true; CLI.model := None |}.

Definition keyed : CLI.environment :=
  {| CLI.OPENAI_API_KEY := Some "sk-1"; CLI.HOME := None;
     CLI.OPENAI_API_ORG := None |}.

Definition keyless : CLI.environment :=
  {| CLI.OPENAI_API_KEY := None; CLI.HOME := Some "/home/ada";
     CLI.OPENAI_API_ORG := None |}.

Definition empty_disk : Prompt.filesystem := fun _ => None.

(** A file system whose one file is the key file of [/home/ada]. *)
Definition key_disk : Prompt.filesystem :=
  fun filePath =>
    if String.eqb filePath "/home/ada/.openai-api-key.txt"
    then Some (Prompt.File (" sk-2" ++ String Str.LF EmptyString))
    else None.

(** * Properties *)

(** ** The platform model on samples *)

Example parse_delta :
  JSON.parse (Str.quoted "{'choices':[{'delta':{'content':'Hi'}}]}") =
  Normal (JObject [("choices",
            JArray [JObject [("delta", JObject [("content", JString "Hi")])]])]).
Proof. vm_compute. reflexivity. Qed.

Example parse_rejects :
  JSON.parse "{not valid" = Throw SyntaxError /\
  JSON.parse DONE = Throw SyntaxError /\
  JSON.parse "[1,]" = Throw SyntaxError /\
  JSON.parse "01" = Throw SyntaxError /\
  JSON.parse EmptyString = Throw SyntaxError.
Proof. vm_compute. repeat split; reflexivity. Qed.

Example parse_last_duplicate_wins :
  JSON.parse (Str.quoted "{'a':true,'b':null,'a':false}") =
  Normal (JObject [("a", JBool false); ("b", JNull)]).
Proof. vm_compute. reflexivity. Qed.

Example print_array :
  cbind (JSON.parse (Str.quoted "[1,'a',null,[2,[3]],true,{},0.5,1e21,-0]"))
    JS.ToString =
  Normal "1,a,,2,3,true,[object Object],0.5,1e+21,0".
Proof. vm_compute. reflexivity. Qed.

Example print_numbers :
  map (fun '(m, e) =>
         Number.toString {| Number.negative := false;
                            Number.mantissa := m;
                            Number.exponent := e |})
    [(1, -1); (30000000000000004, -17); (123456789012345678901, 0);
     (9007199254740993, 0); (1, -7); (5, -324); (2, -324); (18, 307)]%Z =
  ["0.1"; "0.30000000000000004"; "123456789012345680000";
   "9007199254740992"; "1e-7"; "5e-324"; "0"; "Infinity"].
Proof. vm_compute. reflexivity. Qed.

Example trim_unicode :
  Str.trim (String Str.LF "  a b " ++ String (ascii_of_nat 194)
              (String (ascii_of_nat 160) EmptyString)) = "a b".
Proof. vm_compute. reflexivity. Qed.

Example unwrap_fenced :
  unwrapMarkdown ("```js" ++ String Str.LF "let x;" ++ String Str.LF "```") =
  Normal "let x;" /\
  unwrapMarkdown "```" = Throw TypeError.
Proof. vm_compute. split; reflexivity. Qed.

(** ** The stream controller *)

Lemma enqueue_open (chunk : string) (c : Stream.controller) :
  Stream.canCloseOrEnqueue c = true ->
  exists c', Stream.enqueue chunk c = Normal c' /\
             Stream.canCloseOrEnqueue c' = true /\
             Stream.state_of c' = Stream.readable.
Proof.
  intros H. unfold Stream.enqueue. rewrite H. eexists. split; [reflexivity|].
  split; reflexivity.
Qed.

Lemma enqueue_shut (chunk : string) (c : Stream.controller) :
  Stream.canCloseOrEnqueue c = false ->
  Stream.enqueue chunk c = Throw TypeError.
Proof. intros H. unfold Stream.enqueue. now rewrite H. Qed.

Lemma close_shut (c : Stream.controller) :
  Stream.canCloseOrEnqueue c = false ->
  Stream.close c = Throw TypeError.
Proof. intros H. unfold Stream.close. now rewrite H. Qed.

Lemma close_open (c : Stream.controller) :
  Stream.canCloseOrEnqueue c = true ->
  exists c', Stream.close c = Normal c' /\
             Stream.closeRequested c' = true /\
             Stream.canCloseOrEnqueue c' = false /\
             Stream.queue c' = Stream.queue c.
Proof.
  intros H. unfold Stream.close. rewrite H. eexists.
  split; [reflexivity|]. cbn. repeat split.
  unfold Stream.canCloseOrEnqueue. cbn. now destruct (Stream.queue c).
Qed.

Lemma error_shut (e : exn) (c : Stream.controller) :
  Stream.canCloseOrEnqueue (Stream.error e c) = false.
Proof.
  unfold Stream.error, Stream.canCloseOrEnqueue.
  destruct (Stream.state_of c) eqn:E; cbn; try rewrite E; reflexivity.
Qed.

Lemma error_open (e : exn) (c : Stream.controller) :
  Stream.canCloseOrEnqueue c = true ->
  Stream.error e c =
  {| Stream.state_of := Stream.errored e;
     Stream.closeRequested := false;
     Stream.queue := [] |}.
Proof.
  unfold Stream.canCloseOrEnqueue, Stream.error.
  destruct (Stream.state_of c); try discriminate.
  intros H. apply negb_true_iff in H. now rewrite H.
Qed.

Lemma read_keeps_gate (c : Stream.controller) :
  Stream.canCloseOrEnqueue (fst (Stream.read c)) = Stream.canCloseOrEnqueue c.
Proof.
  unfold Stream.read, Stream.canCloseOrEnqueue.
  destruct (Stream.state_of c) eqn:E; cbn; try (rewrite E; reflexivity).
  destruct (Stream.queue c) as [|chunk rest]; cbn; [now rewrite E|].
  destruct rest; [|reflexivity].
  destruct (Stream.closeRequested c); reflexivity.
Qed.

(** ** One call of [onParse] *)

Lemma append_empty (s : string) : s ++ EmptyString = s.
Proof. induction s as [|c s IH]; cbn; [reflexivity|now rewrite IH]. Qed.

Lemma append_assoc (a b c : string) : (a ++ b) ++ c = a ++ (b ++ c).
Proof. induction a as [|x a IH]; cbn; [reflexivity|now rewrite IH]. Qed.

Lemma concat_all_app (l1 l2 : list string) :
  concat_all (l1 ++ l2) = concat_all l1 ++ concat_all l2.
Proof.
  induction l1 as [|x l1 IH]; cbn; [reflexivity|].
  now rewrite IH, append_assoc.
Qed.

Lemma eqb_DONE (text : string) :
  text <> DONE -> String.eqb text DONE = false.
Proof. intros H. now apply String.eqb_neq. Qed.

(** An item that is not an event is ignored. *)
Lemma onParse_other (event : SSE.event) (s : closure) :
  is_event event = false -> onParse event s = (s, Normal tt).
Proof. unfold is_event, onParse. intros ->. reflexivity. Qed.

(** The sentinel: [logger] is called, then [controller.close()], whose
    exception is not caught. *)
Lemma onParse_sentinel (event : SSE.event) (s : closure) :
  is_sentinel event = true ->
  onParse event s =
  let s1 := fst (call_logger s) in
  match Stream.close (controller s) with
  | Normal c => (with_controller c s1, Normal tt)
  | Throw e => (s1, Throw e)
  end.
Proof.
  unfold is_sentinel, is_event, onParse. intros H.
  apply andb_true_iff in H as [-> ->].
  unfold bind, call_logger, controller_close. cbn.
  destruct (Stream.close (controller s)); reflexivity.
Qed.

(** A non-sentinel event, with the [try] block and its handler flattened:
    the closure after [response += text] and [data = json] is [s1]. *)
Lemma onParse_payload (event : SSE.event) (s : closure) :
  is_event event = true ->
  SSE.data event <> DONE ->
  onParse event s =
  match analyse (SSE.data event) with
  | Throw e => controller_error e s
  | Normal (json, text, str) =>
      let s1 := {| counter := counter s; data := json;
                   response := response s ++ str;
                   controller := controller s; logged := logged s;
                   emitted := emitted s |} in
      match (if (counter s <? 2)%nat then JS.match_newline text
             else Normal false) with
      | Throw e => controller_error e s1
      | Normal true => (s1, Normal tt)
      | Normal false =>
          match Stream.enqueue (JS.to_utf8 str) (controller s) with
          | Throw e => controller_error e s1
          | Normal c =>
              ({| counter := S (counter s); data := json;
                  response := response s ++ str;
                  controller := c; logged := logged s;
                  emitted := (emitted s ++ [JS.to_utf8 str])%list |},
               Normal tt)
          end
      end
  end.
Proof.
  unfold is_event, onParse. intros -> Hd. rewrite (eqb_DONE _ Hd).
  unfold analyse, try_catch, suppress, bind, lift, append_response,
    JS.encode, get_counter.
  destruct (JSON.parse (SSE.data event)) as [json|e];
    cbn -[Nat.ltb JS.to_utf8]; [|reflexivity].
  destruct (extract_text json) as [text|e]; cbn -[Nat.ltb JS.to_utf8];
    [|reflexivity].
  destruct (JS.ToString text) as [str|e]; cbn -[Nat.ltb JS.to_utf8];
    [|reflexivity].
  destruct (counter s <? 2)%nat.
  - destruct (JS.match_newline text) as [[|]|e]; cbn -[JS.to_utf8];
      try reflexivity.
    unfold controller_enqueue; cbn -[JS.to_utf8].
    destruct (Stream.enqueue (JS.to_utf8 str) (controller s)); reflexivity.
  - cbn -[JS.to_utf8]. unfold controller_enqueue; cbn -[JS.to_utf8].
    destruct (Stream.enqueue (JS.to_utf8 str) (controller s)); reflexivity.
Qed.

(** Only the sentinel can make [onParse] throw. *)
Lemma onParse_payload_returns (event : SSE.event) (s : closure) :
  is_sentinel event = false ->
  snd (onParse event s) = Normal tt.
Proof.
  unfold is_sentinel. intros H.
  destruct (is_event event) eqn:Ee.
  - cbn in H. apply negb_true_iff in H.
    assert (Hd : SSE.data event <> DONE).
    { intros E. rewrite E in H. discriminate. }
    clear H. rewrite (onParse_payload _ _ Ee Hd).
    destruct (analyse (SSE.data event)) as [[[json text] str]|e];
      [|reflexivity].
    cbv zeta.
    destruct (if (counter s <? 2)%nat then JS.match_newline text
              else Normal false) as [[|]|e]; try reflexivity.
    destruct (Stream.enqueue (JS.to_utf8 str) (controller s)); reflexivity.
  - now rewrite onParse_other.
Qed.

Lemma carries_analyse (event : SSE.event) (t : string) :
  carries event t ->
  exists json,
    JSON.parse (SSE.data event) = Normal json /\
    analyse (SSE.data event) = Normal (json, JString t, t).
Proof.
  intros (_ & _ & json & Hp & Hx). exists json. split; [exact Hp|].
  unfold analyse. rewrite Hp. cbn. rewrite Hx. reflexivity.
Qed.

Lemma carries_fragment (event : SSE.event) (t : string) :
  carries event t -> fragment event = t.
Proof.
  intros H. destruct (carries_analyse _ _ H) as (json & _ & Ha).
  destruct H as (He & Hd & _). unfold fragment.
  now rewrite He, (eqb_DONE _ Hd), Ha.
Qed.

Lemma carries_not_sentinel (event : SSE.event) (t : string) :
  carries event t -> is_sentinel event = false.
Proof.
  intros (He & Hd & _). unfold is_sentinel. now rewrite He, (eqb_DONE _ Hd).
Qed.

(** What [onParse] does with a text fragment, in any state of the
    stream. *)
Lemma onParse_string (event : SSE.event) (t : string) (s : closure) :
  carries event t ->
  exists json,
    JSON.parse (SSE.data event) = Normal json /\
    onParse event s =
    let s1 := {| counter := counter s; data := json;
                 response := response s ++ t;
                 controller := controller s; logged := logged s;
                 emitted := emitted s |} in
    if ((counter s <? 2)%nat && Str.contains_newline t)%bool then
      (s1, Normal tt)
    else if Stream.canCloseOrEnqueue (controller s) then
      ({| counter := S (counter s); data := json;
          response := response s ++ t;
          controller :=
            {| Stream.state_of := Stream.readable;
               Stream.closeRequested := false;
               Stream.queue :=
                 (Stream.queue (controller s) ++ [JS.to_utf8 t])%list |};
          logged := logged s;
          emitted := (emitted s ++ [JS.to_utf8 t])%list |}, Normal tt)
    else
      (with_controller (Stream.error TypeError (controller s)) s1,
       Normal tt).
Proof.
  intros Hc.
  destruct (carries_analyse _ _ Hc) as (json & Hp & Ha).
  exists json. split; [exact Hp|].
  destruct Hc as (He & Hd & _).
  rewrite (onParse_payload _ _ He Hd), Ha. cbv zeta.
  unfold Stream.enqueue.
  destruct (counter s <? 2)%nat; cbn [andb JS.match_newline].
  - destruct (Str.contains_newline t); [reflexivity|].
    now destruct (Stream.canCloseOrEnqueue (controller s)).
  - now destruct (Stream.canCloseOrEnqueue (controller s)).
Qed.

(** The same while the stream is open. *)
Lemma onParse_fragment (event : SSE.event) (t : string) (s : closure) :
  streaming s ->
  carries event t ->
  exists json c,
    JSON.parse (SSE.data event) = Normal json /\
    Stream.enqueue (JS.to_utf8 t) (controller s) = Normal c /\
    Stream.canCloseOrEnqueue c = true /\
    onParse event s =
    if ((counter s <? 2)%nat && Str.contains_newline t)%bool then
      ({| counter := counter s; data := json;
          response := response s ++ t;
          controller := controller s; logged := logged s;
          emitted := emitted s |}, Normal tt)
    else
      ({| counter := S (counter s); data := json;
          response := response s ++ t;
          controller := c; logged := logged s;
          emitted := (emitted s ++ [JS.to_utf8 t])%list |}, Normal tt).
Proof.
  intros Hs Hc.
  destruct (carries_analyse _ _ Hc) as (json & Hp & Ha).
  destruct (enqueue_open (JS.to_utf8 t) _ Hs) as (c & Hq & Hc' & _).
  exists json, c. repeat split; try assumption.
  destruct Hc as (He & Hd & _).
  rewrite (onParse_payload _ _ He Hd), Ha. cbv zeta.
  destruct (counter s <? 2)%nat; cbn -[Stream.enqueue JS.to_utf8].
  - destruct (Str.contains_newline t); [reflexivity|]. now rewrite Hq.
  - now rewrite Hq.
Qed.

(** The encoder leaves a text without surrogates as it is. *)
Lemma to_utf8_scalar (s : string) : scalar s = true -> JS.to_utf8 s = s.
Proof.
  induction s as [|a tail IH]; [reflexivity|].
  intros H. cbn [scalar] in H. apply andb_true_iff in H as [Ha Ht].
  specialize (IH Ht).
  destruct tail as [|b [|c rest]].
  - reflexivity.
  - reflexivity.
  - apply negb_true_iff, orb_false_iff in Ha as [Hh Hl].
    change (JS.to_utf8 (String a (String b (String c rest))))
      with (if JS.high a b then
              match rest with
              | String d (String e (String f rest')) =>
                  if JS.low d e then JS.pair b c e f ++ JS.to_utf8 rest'
                  else JS.REPLACEMENT ++ JS.to_utf8 rest
              | _ => JS.REPLACEMENT ++ JS.to_utf8 rest
              end
            else if JS.low a b then JS.REPLACEMENT ++ JS.to_utf8 rest
            else String a (JS.to_utf8 (String b (String c rest)))).
    now rewrite Hh, Hl, IH.
Qed.

(** ** Claims about a single event *)

(** C2, as amended.  A non-sentinel event whose payload parses and yields
    a fragment [text], with [str] its string form, processed in any state
    of the stream.  [str] is appended to the response.  A string with a
    line feed, met while the counter is below 2, is not emitted and not
    counted, and the stream is left as it is.  A string without a line
    feed, or any fragment once the counter has reached 2, is emitted in
    its UTF-8 encoding and counted while the stream accepts chunks;
    otherwise nothing is emitted or counted and [controller.error] is
    called with the [TypeError] of the refused [enqueue].  A fragment that
    is no string, met while the counter is below 2, makes the line feed
    test throw: nothing is emitted or counted and the stream is errored.
    The encoding of a text without surrogates is the text itself. *)
Theorem suppression_policy (event : SSE.event) (json text : jsvalue)
  (str : string) (s : closure) :
  is_event event = true ->
  SSE.data event <> DONE ->
  analyse (SSE.data event) = Normal (json, text, str) ->
  let s' := fst (onParse event s) in
  snd (onParse event s) = Normal tt /\
  response s' = response s ++ str /\
  (forall t, text = JString t ->
     (counter s < 2)%nat -> Str.contains_newline t = true ->
     emitted s' = emitted s /\ counter s' = counter s /\
     controller s' = controller s) /\
  ((2 <= counter s)%nat \/
   (exists t, text = JString t /\ Str.contains_newline t = false) ->
   if Stream.canCloseOrEnqueue (controller s) then
     emitted s' = (emitted s ++ [JS.to_utf8 str])%list /\
     counter s' = S (counter s) /\
     Stream.canCloseOrEnqueue (controller s') = true
   else
     emitted s' = emitted s /\ counter s' = counter s /\
     controller s' = Stream.error TypeError (controller s)) /\
  ((forall t, text <> JString t) -> (counter s < 2)%nat ->
   emitted s' = emitted s /\ counter s' = counter s /\
   controller s' = Stream.error TypeError (controller s)) /\
  (scalar str = true -> JS.to_utf8 str = str).
Proof.
  intros He Hd Ha s'. subst s'.
  rewrite (onParse_payload _ _ He Hd), Ha. cbv zeta.
  unfold Stream.enqueue.
  split; [|split; [|split; [|split; [|split]]]].
  - destruct (if (counter s <? 2)%nat then JS.match_newline text
              else Normal false) as [[|]|e]; try reflexivity.
    now destruct (Stream.canCloseOrEnqueue (controller s)).
  - destruct (if (counter s <? 2)%nat then JS.match_newline text
              else Normal false) as [[|]|e]; try reflexivity.
    now destruct (Stream.canCloseOrEnqueue (controller s)).
  - intros t -> Hlt Hnl. apply Nat.ltb_lt in Hlt. rewrite Hlt.
    cbn [JS.match_newline]. rewrite Hnl. now cbn.
  - intros Hcase.
    assert (E : (if (counter s <? 2)%nat then JS.match_newline text
                 else Normal false) = Normal false).
    { destruct (counter s <? 2)%nat eqn:Eb; [|reflexivity].
      apply Nat.ltb_lt in Eb.
      destruct Hcase as [Hge | (t & -> & Hnl)]; [lia|].
      cbn [JS.match_newline]. now rewrite Hnl. }
    rewrite E.
    now destruct (Stream.canCloseOrEnqueue (controller s)).
  - intros Hno Hlt. apply Nat.ltb_lt in Hlt. rewrite Hlt.
    destruct text as [| | |t| |]; try (now cbn).
    now contradiction (Hno t).
  - apply to_utf8_scalar.
Qed.

Lemma suppression_policy_witness :
  emitted (fst (onParse hello initial)) = ["Hello"] /\
  counter (fst (onParse hello initial)) = 1.
Proof.
  destruct (suppression_policy hello
              (JObject [("choices",
                 JArray [JObject [("delta",
                   JObject [("content", JString "Hello")])]])])
              (JString "Hello") "Hello" initial)
    as (_ & _ & _ & H & _).
  - reflexivity.
  - discriminate.
  - vm_compute. reflexivity.
  - assert (Hello : (2 <= counter initial)%nat \/
                    (exists t, JString "Hello" = JString t /\
                               Str.contains_newline t = false)).
    { right. exists "Hello". split; reflexivity. }
    specialize (H Hello). cbn in H. destruct H as (E & C & _).
    split; [exact E|exact C].
Defined.

(** C2 as stated fails.  A fragment without a line feed that comes after
    the sentinel is met with the counter at 0, yet it is neither emitted
    nor counted; and a number as the first fragment is not emitted either:
    the line feed test throws and the stream is errored. *)
Lemma fragment_not_emitted :
  (let p := feed [sentinel; hello] boot in
   carrying hello = true /\
   emitted (reducer p) = [] /\
   counter (reducer p) = 0 /\
   response (reducer p) = "Hello") /\
  (let p := feed [five] boot in
   emitted (reducer p) = [] /\
   counter (reducer p) = 0 /\
   response (reducer p) = "5" /\
   Stream.state_of (controller (reducer p)) = Stream.errored TypeError).
Proof. vm_compute. repeat split; reflexivity. Qed.

(** The second end-to-end scenario: two line feeds, then [ok]. *)
Example newline_newline_ok :
  let p := feed [newline; newline; ok] boot in
  emitted (reducer p) = ["ok"] /\
  response (reducer p) = String Str.LF (String Str.LF "ok").
Proof. vm_compute. split; reflexivity. Qed.

(** C8. The events [Hello], [ world] and the sentinel, fed in that order:
    the emitted chunks concatenate to [Hello world], what the consumer
    writes once it has read them is the same, and the completion callback
    is called once, with the response text [Hello world]. *)
Theorem hello_world :
  let p := feed [hello; world; sentinel] boot in
  concat_all (emitted (reducer p)) = "Hello world" /\
  map fst (logged (reducer p)) = ["Hello world"] /\
  concat_all (stdout (run [Read; Read] p)) = "Hello world" /\
  Stream.state_of (controller (reducer (run [Read; Read] p))) = Stream.closed.
Proof. vm_compute. repeat split; reflexivity. Qed.

(** ** Runs *)

Lemma run_app (acts1 acts2 : list action) (p : process) :
  run (acts1 ++ acts2) p = run acts2 (run acts1 p).
Proof.
  revert p. induction acts1 as [|a acts1 IH]; intros p; cbn;
    [reflexivity|apply IH].
Qed.

Lemma not_sentinel_cases (event : SSE.event) :
  is_sentinel event = false ->
  is_event event = false \/
  (is_event event = true /\ SSE.data event <> DONE).
Proof.
  unfold is_sentinel. destruct (is_event event); cbn; [|now left].
  intros H. right. split; [reflexivity|].
  intros E. rewrite E in H. discriminate.
Qed.

(** The effects of a non-sentinel event on the closure. *)
Lemma payload_effects (event : SSE.event) (s : closure) :
  is_sentinel event = false ->
  let s' := fst (onParse event s) in
  logged s' = logged s /\
  response s' = response s ++ fragment event /\
  (Stream.canCloseOrEnqueue (controller s) = false ->
   Stream.canCloseOrEnqueue (controller s') = false /\
   emitted s' = emitted s) /\
  (Stream.canCloseOrEnqueue (controller s') = true ->
   Stream.canCloseOrEnqueue (controller s) = true /\
   data s' =
   if is_event event then
     match JSON.parse (SSE.data event) with
     | Normal json => json
     | Throw _ => data s
     end
   else data s).
Proof.
  intros Hn. destruct (not_sentinel_cases _ Hn) as [He|[He Hd]].
  - rewrite (onParse_other _ _ He). unfold fragment. rewrite He. cbn.
    rewrite append_empty. repeat split; auto.
  - rewrite (onParse_payload _ _ He Hd). unfold fragment.
    rewrite He, (eqb_DONE _ Hd). cbn [andb negb].
    unfold analyse.
    destruct (JSON.parse (SSE.data event)) as [json|e]; cbn -[Nat.ltb].
    2:{ rewrite append_empty, error_shut. repeat split; auto; discriminate. }
    destruct (extract_text json) as [text|e]; cbn -[Nat.ltb].
    2:{ rewrite append_empty, error_shut. repeat split; auto; discriminate. }
    destruct (JS.ToString text) as [str|e]; cbn -[Nat.ltb].
    2:{ rewrite append_empty, error_shut. repeat split; auto; discriminate. }
    destruct (if (counter s <? 2)%nat then JS.match_newline text
              else Normal false) as [[|]|e]; cbn.
    + repeat split; auto.
    + destruct (Stream.canCloseOrEnqueue (controller s)) eqn:Eg.
      * destruct (enqueue_open (JS.to_utf8 str) _ Eg) as (c & -> & Hc & _). cbn.
        repeat split; auto; discriminate.
      * rewrite (enqueue_shut _ _ Eg). cbn. rewrite error_shut.
        repeat split; auto; discriminate.
    + rewrite error_shut. repeat split; auto; discriminate.
Qed.


Lemma step_payload (event : SSE.event) (p : process) :
  is_sentinel event = false ->
  rejected p = None ->
  step (Feed event) p =
  {| reducer := fst (onParse event (reducer p));
     rejected := None;
     stdout := stdout p |}.
Proof.
  intros Es Hr.
  pose proof (onParse_payload_returns event (reducer p) Es) as Hn.
  cbn. rewrite Hr.
  destruct (onParse event (reducer p)) as [s' r]. cbn in *. now subst r.
Qed.

(** The effects of a sentinel event on the process. *)
Lemma sentinel_effects (event : SSE.event) (p : process) :
  is_sentinel event = true ->
  rejected p = None ->
  let p' := step (Feed event) p in
  logged (reducer p') = (logged (reducer p)
                         ++ [(response (reducer p), data (reducer p))])%list /\
  response (reducer p') = response (reducer p) /\
  data (reducer p') = data (reducer p) /\
  counter (reducer p') = counter (reducer p) /\
  emitted (reducer p') = emitted (reducer p) /\
  stdout p' = stdout p /\
  gate p' = false /\
  (gate p = true ->
   rejected p' = None /\
   Stream.closeRequested (controller (reducer p')) = true /\
   Stream.queue (controller (reducer p')) =
   Stream.queue (controller (reducer p))) /\
  (gate p = false -> rejected p' = Some TypeError).
Proof.
  intros Hs Hr. unfold gate. cbn. rewrite Hr, (onParse_sentinel _ _ Hs).
  cbv zeta.
  destruct (Stream.canCloseOrEnqueue (controller (reducer p))) eqn:Eg.
  - destruct (close_open _ Eg) as (c & -> & Hc1 & Hc2 & Hc3). cbn.
    repeat split; auto; discriminate.
  - rewrite (close_shut _ Eg). cbn. rewrite error_shut.
    repeat split; auto; discriminate.
Qed.

Lemma rejected_step (a : action) (p : process) (e : exn) :
  rejected p = Some e ->
  let p' := step a p in
  rejected p' = Some e /\
  logged (reducer p') = logged (reducer p) /\
  emitted (reducer p') = emitted (reducer p) /\
  response (reducer p') = response (reducer p) /\
  data (reducer p') = data (reducer p) /\
  gate p' = gate p.
Proof.
  intros Hr. destruct a as [event|]; cbn.
  - rewrite Hr. repeat split; auto.
  - unfold gate.
    pose proof (read_keeps_gate (controller (reducer p))) as G.
    destruct (Stream.read (controller (reducer p))) as [c [chunk|]];
      cbn in *; repeat split; auto.
Qed.

Lemma read_effects (p : process) :
  let p' := step Read p in
  rejected p' = rejected p /\
  logged (reducer p') = logged (reducer p) /\
  emitted (reducer p') = emitted (reducer p) /\
  response (reducer p') = response (reducer p) /\
  data (reducer p') = data (reducer p) /\
  counter (reducer p') = counter (reducer p) /\
  gate p' = gate p.
Proof.
  cbn. unfold gate.
  pose proof (read_keeps_gate (controller (reducer p))) as G.
  destruct (Stream.read (controller (reducer p))) as [c [chunk|]];
    cbn in *; repeat split; auto.
Qed.

(** Once the controller refuses [enqueue] it refuses for good, and nothing
    more is emitted. *)
Lemma shut_step (a : action) (p : process) :
  gate p = false ->
  gate (step a p) = false /\
  emitted (reducer (step a p)) = emitted (reducer p).
Proof.
  intros Hg. destruct a as [event|].
  - destruct (rejected p) as [e|] eqn:Hr.
    + destruct (rejected_step (Feed event) p e Hr) as (_ & _ & He & _ & _ & G).
      now rewrite G, He.
    + destruct (is_sentinel event) eqn:Es.
      * destruct (sentinel_effects _ _ Es Hr) as (_ & _ & _ & _ & He & _ & G & _).
        now rewrite G, He.
      * pose proof (payload_effects event (reducer p) Es) as (_ & _ & H & _).
        rewrite (step_payload _ _ Es Hr). unfold gate in *. cbn.
        now apply H.
  - destruct (read_effects p) as (_ & _ & He & _ & _ & _ & G).
    now rewrite G, He.
Qed.

Lemma shut_run (acts : list action) (p : process) :
  gate p = false ->
  gate (run acts p) = false /\
  emitted (reducer (run acts p)) = emitted (reducer p).
Proof.
  revert p. induction acts as [|a acts IH]; intros p Hg; cbn; [now split|].
  destruct (shut_step a p Hg) as [G E].
  destruct (IH _ G) as [G' E']. split; [exact G'|congruence].
Qed.

Lemma rejected_run (acts : list action) (p : process) (e : exn) :
  rejected p = Some e ->
  rejected (run acts p) = Some e /\
  logged (reducer (run acts p)) = logged (reducer p) /\
  response (reducer (run acts p)) = response (reducer p).
Proof.
  revert p. induction acts as [|a acts IH]; intros p Hr; cbn; [now repeat split|].
  destruct (rejected_step a p e Hr) as (R & L & _ & T & _).
  destruct (IH _ R) as (R' & L' & T'). repeat split; congruence.
Qed.

Lemma fragment_sentinel (event : SSE.event) :
  is_sentinel event = true -> fragment event = EmptyString.
Proof.
  unfold is_sentinel, fragment. intros H.
  apply andb_true_iff in H as [-> ->]. reflexivity.
Qed.

Lemma feed_response (event : SSE.event) (p : process) :
  rejected p = None ->
  response (reducer (step (Feed event) p)) =
  response (reducer p) ++ fragment event.
Proof.
  intros Hr. destruct (is_sentinel event) eqn:Es.
  - destruct (sentinel_effects _ _ Es Hr) as (_ & -> & _).
    now rewrite (fragment_sentinel _ Es), append_empty.
  - pose proof (payload_effects event (reducer p) Es) as (_ & H & _).
    now rewrite (step_payload _ _ Es Hr).
Qed.

Lemma feed_logged (event : SSE.event) (p : process) :
  is_sentinel event = false ->
  logged (reducer (step (Feed event) p)) = logged (reducer p) /\
  (rejected p = None -> rejected (step (Feed event) p) = None).
Proof.
  intros Es.
  pose proof (payload_effects event (reducer p) Es) as (H & _).
  destruct (rejected p) as [e|] eqn:Hr.
  - cbn. rewrite Hr. split; [reflexivity|discriminate].
  - rewrite (step_payload _ _ Es Hr). now split.
Qed.

(** The response is the concatenation of the fragments of the events
    handled so far. *)
Lemma response_history (acts : list action) (p : process) :
  response (reducer (run acts p)) =
  response (reducer p) ++ concat_all (map fragment (handled acts p)).
Proof.
  revert p. induction acts as [|a acts IH]; intros p; cbn [run handled].
  - cbn. now rewrite append_empty.
  - rewrite IH. destruct a as [event|].
    + destruct (rejected p) as [e|] eqn:Hr.
      * now destruct (rejected_step (Feed event) p e Hr) as (_ & _ & _ & -> & _).
      * rewrite (feed_response _ _ Hr). cbn. now rewrite append_assoc.
    + destruct (read_effects p) as (_ & _ & _ & -> & _).
      now destruct (rejected p).
Qed.

Lemma handled_all (acts : list action) (p : process) :
  rejected (run acts p) = None -> handled acts p = events_of acts.
Proof.
  revert p. induction acts as [|a acts IH]; intros p H; cbn in *;
    [reflexivity|].
  assert (Hp : rejected p = None).
  { destruct (rejected p) as [e|] eqn:Hr; [|reflexivity].
    destruct (rejected_step a p e Hr) as (R & _).
    destruct (rejected_run acts _ e R) as (R' & _). congruence. }
  rewrite Hp, (IH _ H). now destruct a.
Qed.

(** While the stream is open no sentinel has been seen, no error has
    occurred, and every payload so far was parsed and stored. *)
Lemma open_step (a : action) (p : process) :
  rejected p = None ->
  gate (step a p) = true ->
  gate p = true /\
  rejected (step a p) = None /\
  logged (reducer (step a p)) = logged (reducer p) /\
  data (reducer (step a p)) = last_parsed (data (reducer p)) (events_of [a]).
Proof.
  intros Hr Hg. destruct a as [event|].
  - destruct (is_sentinel event) eqn:Es.
    + destruct (sentinel_effects _ _ Es Hr) as (_ & _ & _ & _ & _ & _ & G & _).
      congruence.
    + pose proof (payload_effects event (reducer p) Es) as (L & _ & _ & H).
      rewrite (step_payload _ _ Es Hr) in Hg |- *.
      unfold gate in *. cbn [reducer rejected] in *.
      destruct (H Hg) as [G D]. repeat split; auto.
      rewrite D. cbn [events_of last_parsed].
      destruct (not_sentinel_cases _ Es) as [He|[He Hd]];
        rewrite He; cbn [andb]; [reflexivity|].
      now rewrite (eqb_DONE _ Hd).
  - destruct (read_effects p) as (R & L & _ & _ & D & _ & G).
    cbn [events_of last_parsed]. repeat split; congruence.
Qed.

Lemma open_history (acts : list action) (p : process) :
  rejected p = None ->
  gate (run acts p) = true ->
  gate p = true /\
  rejected (run acts p) = None /\
  logged (reducer (run acts p)) = logged (reducer p) /\
  data (reducer (run acts p)) = last_parsed (data (reducer p)) (events_of acts).
Proof.
  revert p. induction acts as [|a acts IH]; intros p Hr Hg; cbn [run] in *.
  - repeat split; auto.
  - assert (G1 : gate (step a p) = true).
    { destruct (gate (step a p)) eqn:G; [reflexivity|].
      destruct (shut_run acts _ G) as [G' _]. congruence. }
    destruct (open_step a p Hr G1) as (G & R & L & D).
    destruct (IH _ R Hg) as (_ & R' & L' & D').
    repeat split; auto; try congruence.
    rewrite D', D. destruct a; reflexivity.
Qed.

(** Events other than the sentinel never call [logger]. *)
Lemma quiet_run (acts : list action) (p : process) :
  forallb (fun event => negb (is_sentinel event)) (events_of acts) = true ->
  logged (reducer (run acts p)) = logged (reducer p) /\
  (rejected p = None -> rejected (run acts p) = None).
Proof.
  revert p. induction acts as [|a acts IH]; intros p H; cbn [run];
    [now split|].
  destruct a as [event|]; cbn in H.
  - apply andb_true_iff in H as [Hn H]. apply negb_true_iff in Hn.
    destruct (feed_logged event p Hn) as [L R].
    destruct (IH (step (Feed event) p) H) as [L' R'].
    split; [congruence|auto].
  - destruct (read_effects p) as (R & L & _).
    destruct (IH (step Read p) H) as [L' R'].
    split; [congruence|]. intros Hr. apply R'. congruence.
Qed.



(** [onParse] does not look at what is queued. *)
Lemma onParse_alike (event : SSE.event) (s s' : closure) :
  alike s s' ->
  alike (fst (onParse event s)) (fst (onParse event s')) /\
  snd (onParse event s) = snd (onParse event s').
Proof.
  destruct s as [n d r k l e], s' as [n' d' r' k' l' e'].
  unfold alike. cbn. intros (<- & <- & <- & <- & <- & G).
  destruct (is_sentinel event) eqn:Es.
  - rewrite !(onParse_sentinel _ _ Es). cbn.
    destruct (Stream.canCloseOrEnqueue k) eqn:Gk; symmetry in G.
    + destruct (close_open _ Gk) as (c & -> & _ & Hc & _).
      destruct (close_open _ G) as (c' & -> & _ & Hc' & _).
      cbn. repeat split; congruence.
    + rewrite (close_shut _ Gk), (close_shut _ G). cbn.
      repeat split; congruence.
  - destruct (not_sentinel_cases _ Es) as [He|[He Hd]].
    + rewrite !(onParse_other _ _ He). cbn. repeat split; congruence.
    + rewrite !(onParse_payload _ _ He Hd). cbn -[Nat.ltb].
      destruct (analyse (SSE.data event)) as [[[json text] str]|x];
        cbn -[Nat.ltb].
      2:{ rewrite !error_shut. repeat split. }
      destruct (if (n <? 2)%nat then JS.match_newline text
                else Normal false) as [[|]|x]; cbn.
      * repeat split; congruence.
      * destruct (Stream.canCloseOrEnqueue k) eqn:Gk; symmetry in G.
        -- destruct (enqueue_open (JS.to_utf8 str) _ Gk) as (c & -> & Hc & _).
           destruct (enqueue_open (JS.to_utf8 str) _ G) as (c' & -> & Hc' & _).
           cbn. repeat split; congruence.
        -- rewrite (enqueue_shut _ _ Gk), (enqueue_shut _ _ G). cbn.
           rewrite !error_shut. repeat split.
      * rewrite !error_shut. repeat split.
Qed.

Lemma step_alike (event : SSE.event) (p q : process) :
  alike_process p q ->
  alike_process (step (Feed event) p) (step (Feed event) q).
Proof.
  intros [R A]. cbn. rewrite <- R.
  destruct (rejected p) eqn:Rp; [split; [congruence|assumption]|].
  destruct (onParse_alike event _ _ A) as [A' E].
  destruct (onParse event (reducer p)) as [s r],
    (onParse event (reducer q)) as [s' r']. cbn in A', E. subst r'.
  destruct r as [[]|x]; split; cbn; try reflexivity; try exact A'.
  unfold alike in *. cbn. rewrite !error_shut.
  destruct A' as (? & ? & ? & ? & ? & _). repeat split; assumption.
Qed.

(** The reads of the consumer are invisible to the reducer: however they
    are interleaved with the events, the variables of the closure, the
    calls of [logger] and the chunks emitted are those of the events fed
    back to back. *)
Lemma reads_invisible (acts : list action) (p q : process) :
  alike_process p q ->
  alike_process (run acts p) (feed (events_of acts) q).
Proof.
  revert p q. induction acts as [|a acts IH]; intros p q H; [exact H|].
  destruct a as [event|]; cbn [run events_of].
  - apply (IH _ (step (Feed event) q)). now apply step_alike.
  - apply IH. destruct H as [R A].
    destruct (read_effects p) as (R' & L & E & T & D & C & G).
    unfold alike_process, alike, gate in *.
    destruct A as (? & ? & ? & ? & ? & ?).
    repeat split; congruence.
Qed.

(** An event whose [try] block throws before it touches the closure, while
    the stream is open. *)
Lemma failed_event (event : SSE.event) (e : exn)
  (p : process) (more : list action) :
  let p' := step (Feed event) p in
  rejected p = None ->
  streaming (reducer p) ->
  is_event event = true ->
  SSE.data event <> DONE ->
  analyse (SSE.data event) = Throw e ->
  controller (reducer p') =
  {| Stream.state_of := Stream.errored e;
     Stream.closeRequested := false;
     Stream.queue := [] |} /\
  rejected p' = None /\
  response (reducer p') = response (reducer p) /\
  data (reducer p') = data (reducer p) /\
  counter (reducer p') = counter (reducer p) /\
  logged (reducer p') = logged (reducer p) /\
  emitted (reducer (run more p')) = emitted (reducer p) /\
  (forallb (fun event => negb (is_sentinel event)) (events_of more) = true ->
   logged (reducer (run more p')) = logged (reducer p)) /\
  (forall later,
     is_sentinel later = true ->
     logged (reducer (step (Feed later) p')) =
     (logged (reducer p) ++ [(response (reducer p), data (reducer p))])%list).
Proof.
  intros p' Hr Hs He Hd Hp.
  assert (Es : is_sentinel event = false).
  { unfold is_sentinel. now rewrite He, (eqb_DONE _ Hd). }
  assert (Ep : p' = {| reducer :=
                         with_controller
                           (Stream.error e (controller (reducer p)))
                           (reducer p);
                       rejected := None; stdout := stdout p |}).
  { unfold p'. rewrite (step_payload _ _ Es Hr), (onParse_payload _ _ He Hd).
    rewrite Hp. reflexivity. }
  assert (G : gate p' = false).
  { rewrite Ep. unfold gate. cbn. apply error_shut. }
  destruct (shut_run more p' G) as [_ E].
  assert (L := fun Q => proj1 (quiet_run more p' Q)).
  assert (F : logged (reducer p') = logged (reducer p))
    by (rewrite Ep; reflexivity).
  assert (R : rejected p' = None) by (rewrite Ep; reflexivity).
  rewrite E.
  repeat split;
    try (rewrite Ep; cbn; try rewrite (error_open _ _ Hs); reflexivity).
  - intros Q. now rewrite (L Q).
  - intros later El.
    destruct (sentinel_effects later p' El R) as (-> & _).
    rewrite Ep. reflexivity.
Qed.

(** Without a first choice the extraction throws. *)
Lemma extract_without_choice (json : jsvalue) :
  JS.get json "choices" = None \/ JS.get json "choices" = Some (JArray []) ->
  extract_text json = Throw TypeError.
Proof.
  unfold extract_text. intros [H|H].
  - destruct json; try reflexivity. cbn in *. now rewrite H.
  - destruct json; try discriminate. cbn in *. now rewrite H.
Qed.

(** ** Claims about the sentinel and about failures *)




(** C5. At every point of a run the response is the concatenation, in
    arrival order, of the fragments of the events handled so far, the
    suppressed ones included; these are all the events fed unless [start]
    was ended by an exception; and a sentinel processed then hands this
    very text to [logger]. *)
Theorem accumulated_text (acts : list action) (event : SSE.event) :
  let p := run acts boot in
  response (reducer p) = concat_all (map fragment (handled acts boot)) /\
  (rejected p = None -> handled acts boot = events_of acts) /\
  (rejected p = None -> is_sentinel event = true ->
   logged (reducer (step (Feed event) p)) =
   (logged (reducer p)
    ++ [(concat_all (map fragment (events_of acts)), data (reducer p))])%list).
Proof.
  intros p.
  assert (T : response (reducer p) =
              concat_all (map fragment (handled acts boot))).
  { unfold p. now rewrite response_history. }
  split; [exact T|]. split; [apply handled_all|].
  intros R Es.
  destruct (sentinel_effects event p Es R) as (L & _).
  rewrite L, T. unfold p. now rewrite (handled_all acts boot R).
Qed.

Lemma accumulated_text_witness :
  map fst
    (logged (reducer (feed [newline; newline; ok; sentinel] boot))) =
  [String Str.LF (String Str.LF "ok")].
Proof.
  change (feed [newline; newline; ok; sentinel] boot)
    with (step (Feed sentinel) (run (map Feed [newline; newline; ok]) boot)).
  rewrite (proj2 (proj2
             (accumulated_text (map Feed [newline; newline; ok]) sentinel))
             eq_refl eq_refl).
  vm_compute. reflexivity.
Defined.

(** C4, as amended.  A non-sentinel event whose payload is not valid JSON,
    processed while the stream is open: the stream is errored with the
    parse error and what was queued is dropped; neither the response nor
    the metadata nor the counter change; this event does not call
    [logger], and neither does any later event other than a sentinel;
    nothing more is ever emitted.  A sentinel that comes next does call
    [logger], with the response and metadata as they were. *)
Theorem malformed_payload (event : SSE.event) (e : exn)
  (p : process) (more : list action) :
  let p' := step (Feed event) p in
  rejected p = None ->
  streaming (reducer p) ->
  is_event event = true ->
  SSE.data event <> DONE ->
  JSON.parse (SSE.data event) = Throw e ->
  controller (reducer p') =
  {| Stream.state_of := Stream.errored e;
     Stream.closeRequested := false;
     Stream.queue := [] |} /\
  rejected p' = None /\
  response (reducer p') = response (reducer p) /\
  data (reducer p') = data (reducer p) /\
  counter (reducer p') = counter (reducer p) /\
  logged (reducer p') = logged (reducer p) /\
  emitted (reducer (run more p')) = emitted (reducer p) /\
  (forallb (fun event => negb (is_sentinel event)) (events_of more) = true ->
   logged (reducer (run more p')) = logged (reducer p)) /\
  (forall later,
     is_sentinel later = true ->
     logged (reducer (step (Feed later) p')) =
     (logged (reducer p) ++ [(response (reducer p), data (reducer p))])%list).
Proof.
  intros p' Hr Hs He Hd Hp.
  apply (failed_event event e p more Hr Hs He Hd).
  unfold analyse. now rewrite Hp.
Qed.

Lemma malformed_payload_witness :
  controller (reducer (feed [hello; payload "{not valid"] boot)) =
  {| Stream.state_of := Stream.errored SyntaxError;
     Stream.closeRequested := false;
     Stream.queue := [] |}.
Proof.
  refine (proj1 (malformed_payload (payload "{not valid") SyntaxError
                   (feed [hello] boot) [] _ _ _ _ _)).
  - reflexivity.
  - reflexivity.
  - reflexivity.
  - discriminate.
  - vm_compute. reflexivity.
Defined.

(** C4 as stated fails: a sentinel that follows the malformed payload
    still calls [logger], although the stream is already errored. *)
Lemma callback_after_malformed :
  let p := feed [payload "{not valid"; sentinel] boot in
  Stream.state_of (controller (reducer p)) = Stream.errored SyntaxError /\
  logged (reducer p) = [(EmptyString, JObject [])].
Proof. vm_compute. split; reflexivity. Qed.

(** C9, as amended.  A non-sentinel event whose payload is valid JSON with
    no [choices] property, or with an empty [choices] array, processed
    while the stream is open: the stream is errored with a [TypeError];
    the event is not taken as an empty fragment, for nothing is appended,
    stored, counted or emitted; this event does not call [logger], and
    neither does any later event other than a sentinel.  A sentinel that
    comes next does call [logger], with the response and metadata as they
    were. *)
Theorem missing_choice (event : SSE.event) (json : jsvalue)
  (p : process) (more : list action) :
  let p' := step (Feed event) p in
  rejected p = None ->
  streaming (reducer p) ->
  is_event event = true ->
  SSE.data event <> DONE ->
  JSON.parse (SSE.data event) = Normal json ->
  JS.get json "choices" = None \/ JS.get json "choices" = Some (JArray []) ->
  controller (reducer p') =
  {| Stream.state_of := Stream.errored TypeError;
     Stream.closeRequested := false;
     Stream.queue := [] |} /\
  rejected p' = None /\
  response (reducer p') = response (reducer p) /\
  data (reducer p') = data (reducer p) /\
  counter (reducer p') = counter (reducer p) /\
  logged (reducer p') = logged (reducer p) /\
  emitted (reducer (run more p')) = emitted (reducer p) /\
  (forallb (fun event => negb (is_sentinel event)) (events_of more) = true ->
   logged (reducer (run more p')) = logged (reducer p)) /\
  (forall later,
     is_sentinel later = true ->
     logged (reducer (step (Feed later) p')) =
     (logged (reducer p) ++ [(response (reducer p), data (reducer p))])%list).
Proof.
  intros p' Hr Hs He Hd Hp Hc.
  apply (failed_event event TypeError p more Hr Hs He Hd).
  unfold analyse. rewrite Hp. cbn.
  now rewrite (extract_without_choice _ Hc).
Qed.

Lemma missing_choice_witness :
  controller (reducer (feed [hello; payload (Str.quoted "{'choices':[]}")] boot)) =
  {| Stream.state_of := Stream.errored TypeError;
     Stream.closeRequested := false;
     Stream.queue := [] |}.
Proof.
  refine (proj1 (missing_choice (payload (Str.quoted "{'choices':[]}"))
                   (JObject [("choices", JArray [])])
                   (feed [hello] boot) [] _ _ _ _ _ _)).
  - reflexivity.
  - reflexivity.
  - reflexivity.
  - discriminate.
  - vm_compute. reflexivity.
  - right. reflexivity.
Defined.

(** C9 as stated fails: a sentinel that follows the event still calls
    [logger], whether [choices] was missing or empty.  (And the error
    comes from reading [choices[0]], not from [choices] not being an
    array: a non-empty string there has a first character, which has no
    [delta], and the event passes as an empty fragment.) *)
Lemma callback_after_missing_choice :
  logged (reducer (feed [payload "{}"; sentinel] boot)) =
  [(EmptyString, JObject [])] /\
  logged (reducer (feed [payload (Str.quoted "{'choices':[]}"); sentinel]
                     boot)) =
  [(EmptyString, JObject [])] /\
  (let p := feed [payload (Str.quoted "{'choices':'none'}")] boot in
   Stream.state_of (controller (reducer p)) = Stream.readable /\
   emitted (reducer p) = [EmptyString]).
Proof. vm_compute. repeat split; reflexivity. Qed.

Lemma extract_with_choice (json choice : jsvalue) :
  first_choice json = Normal (Some choice) ->
  choice <> JNull ->
  extract_text json =
  Normal (JS.or_empty
            (JS.optional_member (JS.get choice "delta") "content")).
Proof.
  intros Hc Hn. unfold extract_text. unfold first_choice in Hc.
  destruct (JS.member (Some json) "choices") as [choices|]; cbn in *;
    [|discriminate].
  rewrite Hc. cbn. destruct choice; try reflexivity. congruence.
Qed.

Lemma extract_without_first (json : jsvalue) :
  (~ exists choice, first_choice json = Normal (Some choice) /\
                    choice <> JNull) ->
  extract_text json = Throw TypeError.
Proof.
  intros Hno. unfold extract_text. unfold first_choice in Hno.
  destruct (JS.member (Some json) "choices") as [choices|e] eqn:Em;
    cbn in *.
  - destruct (JS.element0 choices) as [[choice|]|e] eqn:E0; cbn.
    + destruct choice; try reflexivity;
        exfalso; apply Hno; eexists; (split; [reflexivity|discriminate]).
    + reflexivity.
    + unfold JS.element0 in E0.
      destruct choices as [[]|]; try discriminate; congruence.
  - unfold JS.member in Em. destruct json; congruence.
Qed.

(** C6, as amended.  For a non-sentinel event whose payload parses: the
    extraction throws exactly when there is no first choice, that is when
    [choices[0]] cannot be read or is [undefined] or [null].  With a first
    choice: when [delta] has a string at [content], the extracted text is
    that string; when [delta] is absent, or is there without a [content],
    the extracted text is the empty string, the extraction does not throw,
    nothing is appended and the event is stored as the latest metadata;
    a stream that accepts chunks stays open and readable, while a stream
    that no longer accepts chunks refuses the empty chunk and
    [controller.error] is called with the [TypeError]. *)
Theorem missing_fragment (event : SSE.event) (json : jsvalue)
  (s : closure) :
  is_event event = true ->
  SSE.data event <> DONE ->
  JSON.parse (SSE.data event) = Normal json ->
  ((exists e, extract_text json = Throw e) <->
   ~ exists choice, first_choice json = Normal (Some choice) /\
                    choice <> JNull) /\
  forall choice,
    first_choice json = Normal (Some choice) ->
    choice <> JNull ->
    (forall delta t,
       JS.get choice "delta" = Some delta ->
       JS.get delta "content" = Some (JString t) ->
       extract_text json = Normal (JString t)) /\
    (JS.get choice "delta" = None \/
     (exists delta, JS.get choice "delta" = Some delta /\
                    JS.get delta "content" = None) ->
     let s' := fst (onParse event s) in
     extract_text json = Normal (JString EmptyString) /\
     snd (onParse event s) = Normal tt /\
     response s' = response s /\
     data s' = json /\
     (streaming s ->
      streaming s' /\
      Stream.state_of (controller s') = Stream.readable) /\
     (~ streaming s ->
      controller s' = Stream.error TypeError (controller s) /\
      emitted s' = emitted s /\
      counter s' = counter s)).
Proof.
  intros He Hd Hp. split.
  - split.
    + intros (e & Ht) (choice & Hc & Hn).
      rewrite (extract_with_choice _ _ Hc Hn) in Ht. discriminate.
    + intros Hno. exists TypeError. now apply extract_without_first.
  - intros choice Hc Hn.
    pose proof (extract_with_choice _ _ Hc Hn) as X.
    split.
    + intros delta t Hdelta Ht. rewrite X, Hdelta.
      destruct delta; cbn in Ht |- *; try discriminate.
      rewrite Ht. cbn. destruct t; reflexivity.
    + intros Habsent s'.
      assert (E : extract_text json = Normal (JString EmptyString)).
      { rewrite X. destruct Habsent as [-> | (delta & -> & Hcontent)];
          [reflexivity|].
        destruct delta; cbn in *; try reflexivity. now rewrite Hcontent. }
      split; [exact E|].
      assert (C : carries event EmptyString).
      { split; [exact He|]. split; [exact Hd|]. now exists json. }
      destruct (onParse_string _ _ s C) as (json' & Hp' & Hs').
      rewrite Hp in Hp'. inversion Hp'; subst json'. clear Hp'.
      subst s'. rewrite Hs'. cbv zeta.
      cbn [Str.contains_newline]. rewrite andb_false_r.
      unfold streaming.
      destruct (Stream.canCloseOrEnqueue (controller s)) eqn:G;
        cbn; rewrite append_empty.
      * split; [reflexivity|]. split; [reflexivity|].
        split; [reflexivity|]. split; [now split|].
        intros Hshut. now contradiction Hshut.
      * split; [reflexivity|]. split; [reflexivity|].
        split; [reflexivity|]. split; [discriminate|].
        intros _. now repeat split.
Qed.

Lemma missing_fragment_witness :
  extract_text (JObject [("choices", JArray [JObject []])]) =
  Normal (JString EmptyString) /\
  Stream.state_of (controller (fst (onParse bare_choice initial))) =
  Stream.readable.
Proof.
  destruct (missing_fragment bare_choice
              (JObject [("choices", JArray [JObject []])]) initial)
    as [_ H].
  - reflexivity.
  - discriminate.
  - vm_compute. reflexivity.
  - destruct (H (JObject [])) as [_ H'].
    + reflexivity.
    + discriminate.
    + destruct H' as (E & _ & _ & _ & S & _).
      * left. reflexivity.
      * split; [exact E|]. apply S. reflexivity.
Defined.

(** C6 as stated fails.  A payload whose first choice is [null] is valid
    JSON without a fragment, and the extraction throws: the stream is
    errored.  And an event without a [delta] that comes after the sentinel
    errors the stream too, the empty chunk being refused; the chunk still
    queued is dropped. *)
Lemma missing_fragment_errors :
  (let p := feed [null_choice] boot in
   extract_text (JObject [("choices", JArray [JNull])]) = Throw TypeError /\
   Stream.state_of (controller (reducer p)) = Stream.errored TypeError) /\
  (let p := feed [hello; sentinel] boot in
   let q := feed [bare_choice] p in
   Stream.state_of (controller (reducer p)) = Stream.readable /\
   Stream.queue (controller (reducer p)) = ["Hello"] /\
   Stream.state_of (controller (reducer q)) = Stream.errored TypeError /\
   Stream.queue (controller (reducer q)) = []).
Proof. vm_compute. repeat split; reflexivity. Qed.

(** ** Claims about sequences of fragments *)

Lemma feed_app (l1 l2 : list SSE.event) (p : process) :
  feed (l1 ++ l2) p = feed l2 (feed l1 p).
Proof. unfold feed. now rewrite map_app, run_app. Qed.

(** One fragment fed to an open stream. *)
Lemma fragment_step (event : SSE.event) (t : string) (p : process) :
  carries event t ->
  rejected p = None ->
  streaming (reducer p) ->
  let q := step (Feed event) p in
  let suppressed :=
    ((counter (reducer p) <? 2)%nat && Str.contains_newline t)%bool in
  rejected q = None /\
  streaming (reducer q) /\
  response (reducer q) = response (reducer p) ++ t /\
  emitted (reducer q) =
    (if suppressed then emitted (reducer p)
     else (emitted (reducer p) ++ [JS.to_utf8 t])%list) /\
  counter (reducer q) =
    (if suppressed then counter (reducer p) else S (counter (reducer p))).
Proof.
  intros Hc Hr Hs.
  rewrite (step_payload _ _ (carries_not_sentinel _ _ Hc) Hr).
  destruct (onParse_fragment _ _ _ Hs Hc) as (json & c & _ & _ & Hg & ->).
  destruct ((counter (reducer p) <? 2)%nat && Str.contains_newline t)%bool;
    cbn; repeat split; assumption.
Qed.

(** A run of fragments fed to an open stream follows the policy. *)
Lemma fragments_run (events : list SSE.event) (ts : list string) :
  Forall2 carries events ts ->
  forall p : process,
  rejected p = None ->
  streaming (reducer p) ->
  let q := feed events p in
  rejected q = None /\
  streaming (reducer q) /\
  response (reducer q) = response (reducer p) ++ concat_all ts /\
  emitted (reducer q) =
    (emitted (reducer p)
     ++ map JS.to_utf8 (policy (counter (reducer p)) ts))%list /\
  counter (reducer q) =
    (counter (reducer p) + length (policy (counter (reducer p)) ts))%nat.
Proof.
  induction 1 as [|event t events ts Hc _ IH]; intros p Hr Hs.
  - cbn. rewrite append_empty, app_nil_r, Nat.add_0_r. repeat split; auto.
  - destruct (fragment_step event t p Hc Hr Hs) as (R & S & T & E & C).
    destruct (IH _ R S) as (R' & S' & T' & E' & C').
    change (feed (event :: events) p)
      with (feed events (step (Feed event) p)).
    cbv zeta. rewrite T', E', C', T, E, C. cbn [concat_all policy].
    destruct ((counter (reducer p) <? 2)%nat && Str.contains_newline t)%bool;
      cbn [length map]; rewrite ?append_assoc, <- ?app_assoc; cbn [app];
      repeat split; auto; lia.
Qed.

Lemma newline_carries : carries newline (String Str.LF EmptyString).
Proof.
  split; [reflexivity|]. split; [discriminate|].
  eexists. split.
  - vm_compute. reflexivity.
  - reflexivity.
Qed.

(** C3 as stated fails: the fragment at position 2 is not emitted when it
    holds a line feed and fewer than two fragments were emitted before it.
    Three line feeds in a row produce no output at all. *)
Lemma third_newline_suppressed :
  let p := feed [newline; newline; newline] boot in
  emitted (reducer p) = [] /\
  response (reducer p) =
  String Str.LF (String Str.LF (String Str.LF EmptyString)).
Proof. vm_compute. split; reflexivity. Qed.

(** ** [String.prototype.trim] *)

Lemma rev_append_app (s acc : string) :
  Str.rev_append s acc = Str.rev s ++ acc.
Proof.
  unfold Str.rev. revert acc.
  induction s as [|c s IH]; intros acc; cbn; [reflexivity|].
  rewrite (IH (String c acc)), (IH (String c EmptyString)).
  now rewrite append_assoc.
Qed.

Lemma rev_cons (c : ascii) (s : string) :
  Str.rev (String c s) = Str.rev s ++ String c EmptyString.
Proof. unfold Str.rev at 1. cbn. apply rev_append_app. Qed.

Lemma rev_app (a b : string) : Str.rev (a ++ b) = Str.rev b ++ Str.rev a.
Proof.
  induction a as [|c a IH]; cbn [append].
  - now rewrite append_empty.
  - now rewrite !rev_cons, IH, append_assoc.
Qed.

Lemma rev_involutive (s : string) : Str.rev (Str.rev s) = s.
Proof.
  induction s as [|c s IH]; [reflexivity|].
  now rewrite rev_cons, rev_app, IH.
Qed.

Lemma spaces_app (backwards : bool) (s1 s2 : string) :
  spaces backwards s1 -> spaces backwards s2 -> spaces backwards (s1 ++ s2).
Proof.
  induction 1; intros H2; cbn [append]; auto;
    [apply spaces_1|apply spaces_2|apply spaces_3]; auto.
Qed.

(** A run of white space read from its end is, reversed, white space. *)
Lemma spaces_rev (s : string) : spaces true s -> blank (Str.rev s).
Proof.
  unfold blank. induction 1.
  - constructor.
  - rewrite rev_cons. apply spaces_app; [assumption|].
    apply spaces_1; [assumption|constructor].
  - rewrite !rev_cons, append_assoc. apply spaces_app; [assumption|].
    cbn. apply spaces_2; [assumption|constructor].
  - rewrite !rev_cons, !append_assoc. apply spaces_app; [assumption|].
    cbn. apply spaces_3; [assumption|constructor].
Qed.

(** [drop_space] removes a run of white space and leaves none in front. *)
Lemma drop_space_spec (backwards : bool) (n : nat) (s : string) :
  (String.length s <= n)%nat ->
  leading_space backwards (Str.drop_space backwards s) = false /\
  exists removed,
    spaces backwards removed /\
    s = removed ++ Str.drop_space backwards s.
Proof.
  revert s. induction n as [|n IH]; intros s Hn.
  - destruct s; cbn in Hn; [|lia]. cbn. split; [reflexivity|].
    exists EmptyString. split; [constructor|reflexivity].
  - destruct s as [|a r1]; cbn [Str.drop_space].
    { split; [reflexivity|]. exists EmptyString.
      split; [constructor|reflexivity]. }
    cbn in Hn. destruct (Str.ws1 a) eqn:E1.
    { destruct (IH r1 ltac:(lia)) as (L & removed & Hs & Hr).
      split; [exact L|]. exists (String a removed).
      split; [now apply spaces_1|]. cbn. now rewrite <- Hr. }
    destruct r1 as [|b r2].
    { split; [cbn; now rewrite E1|]. exists EmptyString.
      split; [constructor|reflexivity]. }
    cbn in Hn.
    destruct (if backwards then Str.ws2 b a else Str.ws2 a b) eqn:E2.
    { destruct (IH r2 ltac:(lia)) as (L & removed & Hs & Hr).
      split; [exact L|]. exists (String a (String b removed)).
      split; [now apply spaces_2|]. cbn. now rewrite <- Hr. }
    destruct r2 as [|c r3].
    { split; [cbn; now rewrite E1, E2|]. exists EmptyString.
      split; [constructor|reflexivity]. }
    cbn in Hn.
    destruct (if backwards then Str.ws3 c b a else Str.ws3 a b c) eqn:E3.
    { destruct (IH r3 ltac:(lia)) as (L & removed & Hs & Hr).
      split; [exact L|]. exists (String a (String b (String c removed))).
      split; [now apply spaces_3|]. cbn. now rewrite <- Hr. }
    split; [cbn; now rewrite E1, E2, E3|]. exists EmptyString.
    split; [constructor|reflexivity].
Qed.

Lemma leading_space_prefix (backwards : bool) (u v : string) :
  leading_space backwards u = true ->
  leading_space backwards (u ++ v) = true.
Proof.
  destruct u as [|a [|b [|c u]]]; cbn; try discriminate.
  - rewrite orb_false_r. now intros ->.
  - rewrite orb_false_r. intros H. apply orb_true_iff in H as [-> | ->];
      [reflexivity|]. cbn. now rewrite orb_true_r.
  - auto.
Qed.

(** [trim] removes white space at both ends and nothing else. *)
Lemma trim_spec (s : string) :
  (exists before after,
     blank before /\ blank after /\ s = before ++ Str.trim s ++ after) /\
  starts_with_space (Str.trim s) = false /\
  ends_with_space (Str.trim s) = false.
Proof.
  unfold Str.trim, Str.trimEnd, Str.trimStart.
  destruct (drop_space_spec false _ s (le_n _)) as (L1 & before & B1 & E1).
  set (t := Str.drop_space false s) in *.
  destruct (drop_space_spec true _ (Str.rev t) (le_n _))
    as (L2 & removed & B2 & E2).
  set (d := Str.drop_space true (Str.rev t)) in *.
  assert (Et : t = Str.rev d ++ Str.rev removed).
  { rewrite <- (rev_involutive t), E2, rev_app. reflexivity. }
  split; [|split].
  - exists before, (Str.rev removed).
    split; [exact B1|]. split; [now apply spaces_rev|].
    now rewrite <- Et.
  - unfold starts_with_space.
    destruct (leading_space false (Str.rev d)) eqn:E; [|reflexivity].
    apply (leading_space_prefix false _ (Str.rev removed)) in E.
    rewrite <- Et in E. congruence.
  - unfold ends_with_space. now rewrite rev_involutive.
Qed.

(** ** Claims about [main] *)

Lemma response_of_content (reply : jsvalue) (content : string) :
  content_of reply = Normal (Some (JString content)) ->
  response_of reply = Normal (Str.trim content).
Proof.
  unfold content_of, response_of.
  destruct (JS.member (Some reply) "choices") as [choices|]; cbn;
    [|discriminate].
  destruct (JS.element0 choices) as [choice|]; cbn; [|discriminate].
  destruct (JS.member choice "message") as [message|]; cbn; [|discriminate].
  intros ->. reflexivity.
Qed.

Lemma oneshot_logger (args : options) (body : string) (reply : jsvalue)
  (content : string) :
  JSON.parse body = Normal reply ->
  content_of reply = Normal (Some (JString content)) ->
  logger_calls (main_oneshot args body) = [(Str.trim content, reply)].
Proof.
  intros Hp Hc. unfold main_oneshot.
  rewrite Hp, (response_of_content _ _ Hc).
  destruct (display args (Str.trim content)); reflexivity.
Qed.

(** Without a string at [content] the branch throws before it reaches
    [logger]. *)
Lemma oneshot_silent (args : options) (body : string) (reply : jsvalue) :
  JSON.parse body = Normal reply ->
  (forall text, content_of reply <> Normal (Some (JString text))) ->
  logger_calls (main_oneshot args body) = [].
Proof.
  intros Hp H. unfold main_oneshot. rewrite Hp.
  destruct (response_of reply) as [text|e] eqn:Hr; [|reflexivity].
  exfalso. revert Hr H. unfold response_of, content_of.
  destruct (JS.member (Some reply) "choices") as [choices|]; cbn;
    [|discriminate].
  destruct (JS.element0 choices) as [choice|]; cbn; [|discriminate].
  destruct (JS.member choice "message") as [message|]; cbn; [|discriminate].
  destruct (JS.member message "content") as [[[]|]|]; cbn;
    try discriminate.
  intros _ H. now apply (H s).
Qed.



(** C7, as amended.  [logger] is called once per completed exchange, not
    once per invocation.  In the non-streaming branch, a reply whose
    [choices[0].message.content] is a string makes exactly one call, with
    the trimmed content and the parsed reply, and a reply without such a
    string makes none.  In the streaming branch, a
    run with exactly one sentinel makes exactly one call, with the
    response accumulated and the metadata stored when the sentinel
    arrives, and a run with no sentinel makes none.  Each call passes on
    to [log], when logging is enabled, the prompt text, the model, the
    system text, that response and that metadata. *)
Theorem logger_once (args : options) (expandedPrompt today : string)
  (body : string) (reply : jsvalue) (content : string)
  (acts1 acts2 : list action) (event : SSE.event) :
  let quiet := forallb (fun event => negb (is_sentinel event)) in
  let entry call :=
    {| entry_prompt := expandedPrompt;
       entry_model := model_of args;
       entry_system := system_of args today;
       entry_response := fst call;
       entry_data := snd call |} in
  (JSON.parse body = Normal reply ->
   content_of reply = Normal (Some (JString content)) ->
   logger_calls (main_oneshot args body) = [(Str.trim content, reply)]) /\
  (JSON.parse body = Normal reply ->
   (forall text, content_of reply <> Normal (Some (JString text))) ->
   logger_calls (main_oneshot args body) = []) /\
  (quiet (events_of acts1) = true ->
   logged (reducer (run acts1 boot)) = []) /\
  (quiet (events_of acts1) = true ->
   is_sentinel event = true ->
   quiet (events_of acts2) = true ->
   let p := run acts1 boot in
   logged (reducer (run (acts1 ++ Feed event :: acts2) boot)) =
   [(response (reducer p), data (reducer p))] /\
   response (reducer p) = concat_all (map fragment (events_of acts1))) /\
  (forall call,
     logger args expandedPrompt today call =
     if log args then [entry call] else []).
Proof.
  intros quiet entry. split; [apply oneshot_logger|].
  split; [apply oneshot_silent|]. split; [|split].
  - intros Q. now destruct (quiet_run acts1 boot Q) as [-> _].
  - intros Q1 Es Q2 p.
    destruct (quiet_run acts1 boot Q1) as [L1 R1]. fold p in L1, R1.
    specialize (R1 eq_refl).
    destruct (sentinel_effects event p Es R1) as (L & _).
    split.
    + rewrite run_app. fold p. cbn [run].
      destruct (quiet_run acts2 (step (Feed event) p) Q2) as [-> _].
      rewrite L, L1. reflexivity.
    + unfold p. rewrite response_history, (handled_all acts1 boot R1).
      reflexivity.
  - reflexivity.
Qed.

Lemma logger_once_witness :
  logged (reducer (run (map Feed [hello; world] ++ Feed sentinel :: [Read; Read])
                     boot)) =
  [(response (reducer (run (map Feed [hello; world]) boot)),
    data (reducer (run (map Feed [hello; world]) boot)))].
Proof.
  refine (proj1 (proj1 (proj2 (proj2 (proj2
            (logger_once plain "Hi" "2023-06-01" EmptyString JNull EmptyString
               (map Feed [hello; world]) [Read; Read] sentinel)))) _ _ _)).
  - reflexivity.
  - reflexivity.
  - reflexivity.
Defined.

(** C7 as stated fails: a stream that ends without a sentinel, such as the
    body of an error reply that holds no event at all, never calls
    [logger]; nor does the non-streaming branch when the reply is an error
    object. *)
Lemma logger_not_called :
  logged (reducer (run [Read] boot)) = [] /\
  logged (reducer (run [Feed hello; Read; Feed world; Read] boot)) = [] /\
  logger_calls
    (main_oneshot plain (Str.quoted "{'error':{'message':'Incorrect API key'}}")) =
  [].
Proof. vm_compute. repeat split; reflexivity. Qed.

(** * Further properties of the code *)

(** ** Invariants of a stream *)

Lemma analyse_inv (eventData : string) (json text : jsvalue) (str : string) :
  analyse eventData = Normal (json, text, str) ->
  JSON.parse eventData = Normal json /\
  extract_text json = Normal text /\
  JS.ToString text = Normal str.
Proof.
  unfold analyse.
  destruct (JSON.parse eventData) as [j|] eqn:E1; cbn; [|discriminate].
  destruct (extract_text j) as [t|] eqn:E2; cbn; [|discriminate].
  destruct (JS.ToString t) as [x|] eqn:E3; cbn; [|discriminate].
  intros H. inversion H; subst. repeat split; assumption.
Qed.

Lemma contains_newline_app (a b : string) :
  Str.contains_newline (a ++ b) =
  (Str.contains_newline a || Str.contains_newline b)%bool.
Proof.
  induction a as [|x a IH]; [reflexivity|].
  cbn [append Str.contains_newline].
  now destruct (Ascii.eqb x Str.LF).
Qed.

(** A byte from 128 up is no line feed. *)
Lemma byte_no_newline (z : Z) :
  (128 <= z < 256)%Z -> Ascii.eqb (JSON.byte z) Str.LF = false.
Proof.
  intros Hz. apply Ascii.eqb_neq. intros E.
  apply (f_equal nat_of_ascii) in E. unfold JSON.byte in E.
  rewrite nat_ascii_embedding in E by lia.
  cbn in E. lia.
Qed.

Lemma pair_no_newline (b c e f : ascii) :
  Str.contains_newline (JS.pair b c e f) = false.
Proof.
  unfold JS.pair. cbv zeta.
  set (cp := (65536
              + (JSON.code b mod 16 * 64 + JSON.code c mod 64) * 1024
              + (JSON.code e mod 16 * 64 + JSON.code f mod 64))%Z).
  assert (Hcp : (65536 <= cp < 1114112)%Z).
  { pose proof (Z.mod_pos_bound (JSON.code b) 16 ltac:(lia)).
    pose proof (Z.mod_pos_bound (JSON.code c) 64 ltac:(lia)).
    pose proof (Z.mod_pos_bound (JSON.code e) 16 ltac:(lia)).
    pose proof (Z.mod_pos_bound (JSON.code f) 64 ltac:(lia)).
    unfold cp. lia. }
  unfold JSON.push_code_point.
  destruct (cp <? 128)%Z eqn:E1; [apply Z.ltb_lt in E1; lia|].
  destruct (cp <? 2048)%Z eqn:E2; [apply Z.ltb_lt in E2; lia|].
  destruct (cp <? 65536)%Z eqn:E3; [apply Z.ltb_lt in E3; lia|].
  unfold Str.rev. cbn [Str.rev_append Str.contains_newline].
  pose proof (Z.mod_pos_bound cp 64 ltac:(lia)).
  pose proof (Z.mod_pos_bound (cp / 64) 64 ltac:(lia)).
  pose proof (Z.mod_pos_bound (cp / 4096) 64 ltac:(lia)).
  assert (0 <= cp / 262144 <= 4)%Z.
  { split; [apply Z.div_pos; lia|].
    apply Z.lt_succ_r, Z.div_lt_upper_bound; lia. }
  now rewrite !byte_no_newline by lia.
Qed.

Lemma newline_tail (a : ascii) (s : string) :
  Str.contains_newline (String a s) = false ->
  Ascii.eqb a Str.LF = false /\ Str.contains_newline s = false.
Proof.
  cbn [Str.contains_newline].
  destruct (Ascii.eqb a Str.LF); [discriminate|auto].
Qed.

(** The encoder adds no line feed. *)
Lemma to_utf8_no_newline (s : string) :
  Str.contains_newline s = false ->
  Str.contains_newline (JS.to_utf8 s) = false.
Proof.
  remember (String.length s) as n eqn:Hn.
  assert (Hle : (String.length s <= n)%nat) by lia. clear Hn.
  revert s Hle. induction n as [|n IH]; intros s Hle H.
  { destruct s; [reflexivity|cbn in Hle; lia]. }
  destruct s as [|a tail]; [reflexivity|].
  destruct (newline_tail _ _ H) as [Ha Ht]. cbn in Hle.
  assert (Copy : Str.contains_newline (String a (JS.to_utf8 tail)) = false).
  { cbn [Str.contains_newline]. rewrite Ha. apply IH; [lia|exact Ht]. }
  destruct tail as [|b [|c rest]]; try exact Copy.
  destruct (newline_tail _ _ Ht) as [_ Hb].
  destruct (newline_tail _ _ Hb) as [_ Hrest]. cbn in Hle.
  assert (Rest : Str.contains_newline
                   (JS.REPLACEMENT ++ JS.to_utf8 rest) = false).
  { rewrite contains_newline_app. cbn [orb]. 
    replace (Str.contains_newline JS.REPLACEMENT) with false
      by reflexivity.
    apply IH; [lia|exact Hrest]. }
  change (JS.to_utf8 (String a (String b (String c rest))))
    with (if JS.high a b then
            match rest with
            | String d (String e (String f rest')) =>
                if JS.low d e then JS.pair b c e f ++ JS.to_utf8 rest'
                else JS.REPLACEMENT ++ JS.to_utf8 rest
            | _ => JS.REPLACEMENT ++ JS.to_utf8 rest
            end
          else if JS.low a b then JS.REPLACEMENT ++ JS.to_utf8 rest
          else String a (JS.to_utf8 (String b (String c rest)))).
  destruct (JS.high a b).
  - destruct rest as [|d [|e [|f rest']]]; try exact Rest.
    destruct (JS.low d e); [|exact Rest].
    rewrite contains_newline_app, pair_no_newline. cbn [orb].
    destruct (newline_tail _ _ Hrest) as [_ H1].
    destruct (newline_tail _ _ H1) as [_ H2].
    destruct (newline_tail _ _ H2) as [_ H3].
    cbn in Hle. apply IH; [lia|exact H3].
  - destruct (JS.low a b); [exact Rest|exact Copy].
Qed.

(** Every step is one of the moves. *)
Lemma step_moves (a : action) (p : process) : moves a p (step a p).
Proof.
  destruct a as [event|].
  - destruct (rejected p) as [e|] eqn:Hr.
    { apply moves_keep; cbn; rewrite Hr; repeat split. }
    destruct (is_sentinel event) eqn:Es.
    + apply moves_sentinel; [exact Es|..]; cbn; rewrite Hr;
        rewrite (onParse_sentinel _ _ Es); cbv zeta;
        destruct (Stream.close (controller (reducer p))); reflexivity.
    + rewrite (step_payload _ _ Es Hr).
      destruct (not_sentinel_cases _ Es) as [He|[He Hd]].
      { rewrite (onParse_other _ _ He). apply moves_keep; repeat split. }
      rewrite (onParse_payload _ _ He Hd).
      destruct (analyse (SSE.data event)) as [[[json text] str]|e] eqn:Ha.
      2:{ apply (moves_fail event e); [exact Es|reflexivity|repeat split]. }
      destruct (analyse_inv _ _ _ _ Ha) as (_ & _ & Ht).
      cbv zeta.
      destruct (counter (reducer p) <? 2)%nat eqn:Eb.
      * destruct (JS.match_newline text) as [[|]|e] eqn:Em.
        -- apply moves_keep; repeat split.
        -- destruct (Stream.enqueue (JS.to_utf8 str) (controller (reducer p)))
             as [c|e] eqn:Eq.
           ++ unfold Stream.enqueue in Eq.
              destruct (Stream.canCloseOrEnqueue (controller (reducer p)))
                eqn:Eg; [|discriminate].
              inversion Eq; subst c.
              apply (moves_emit event (JS.to_utf8 str));
                try reflexivity; try assumption.
              intros _. apply to_utf8_no_newline.
              destruct text; try discriminate.
              cbn in Em, Ht. congruence.
           ++ apply (moves_fail event e); [exact Es|reflexivity|repeat split].
        -- apply (moves_fail event e); [exact Es|reflexivity|repeat split].
      * destruct (Stream.enqueue (JS.to_utf8 str) (controller (reducer p)))
          as [c|e] eqn:Eq.
        -- unfold Stream.enqueue in Eq.
           destruct (Stream.canCloseOrEnqueue (controller (reducer p)))
             eqn:Eg; [|discriminate].
           inversion Eq; subst c.
           apply (moves_emit event (JS.to_utf8 str));
             try reflexivity; try assumption.
           apply Nat.ltb_ge in Eb. intros. lia.
        -- apply (moves_fail event e); [exact Es|reflexivity|repeat split].
  - cbn. destruct (Stream.read (controller (reducer p))) as [c [chunk|]] eqn:E.
    + apply (moves_read chunk); cbn; try reflexivity. exact E.
    + apply moves_keep; repeat split.
Qed.

(** A property kept by every move holds throughout a run. *)
Lemma run_invariant (I : process -> Prop) :
  (forall a p p', I p -> moves a p p' -> I p') ->
  forall acts p, I p -> I (run acts p).
Proof.
  intros Hstep acts. induction acts as [|a acts IH]; intros p Hp; cbn;
    [exact Hp|].
  apply IH. apply (Hstep a p); [exact Hp|apply step_moves].
Qed.

Lemma counted_and_clean (acts : list action) :
  let s := reducer (run acts boot) in
  counter s = length (emitted s) /\
  no_newlines (firstn 2 (emitted s)) = true.
Proof.
  apply (run_invariant
           (fun p => counter (reducer p) = length (emitted (reducer p)) /\
                     no_newlines (firstn 2 (emitted (reducer p))) = true));
    [|split; reflexivity].
  intros a p p' [Hc Hn] Hm.
  destruct Hm as [a p p' _ (C & E & _)
                 |event chunk p p' _ _ _ C E Hlf _ _
                 |event e p p' _ _ (C & E & _)
                 |event p p' _ _ C E _ _
                 |chunk p p' _ C E _ _];
    try (rewrite C, E; now split).
  rewrite C, E, length_app. cbn [length]. split; [lia|].
  unfold no_newlines in *. rewrite firstn_app, forallb_app, Hn. cbn [andb].
  destruct (2 - length (emitted (reducer p)))%nat as [|k] eqn:Ek;
    [reflexivity|].
  cbn. rewrite Hlf; [now destruct k|lia].
Qed.

(** X1. The counter is the number of chunks emitted: [counter++] runs
    exactly when [controller.enqueue] has accepted a chunk, whatever the
    events and reads of the run. *)
Theorem counter_is_emitted (acts : list action) :
  counter (reducer (run acts boot)) =
  length (emitted (reducer (run acts boot))).
Proof. apply counted_and_clean. Qed.

(** X2. The first two chunks that are ever emitted hold no line feed,
    whatever is fed: while the counter is below 2 only a string without a
    line feed gets as far as [controller.enqueue]. *)
Theorem first_chunks_clean (acts : list action) :
  no_newlines (firstn 2 (emitted (reducer (run acts boot)))) = true.
Proof. apply counted_and_clean. Qed.

(** ** Fragments by position *)

Lemma position_cons (a : action) (acts : list action) :
  position (a :: acts) = (position [a] + position acts)%nat.
Proof.
  unfold position. destruct a as [event|]; cbn [events_of filter];
    [|reflexivity].
  now destruct (carrying event).
Qed.

(** While the counter is below 2 it grows only with an event that carries
    a string fragment. *)
Lemma step_position (a : action) (p : process) :
  (Nat.min 2 (counter (reducer (step a p)))
   <= Nat.min 2 (counter (reducer p)) + position [a])%nat.
Proof.
  destruct a as [event|].
  - destruct (rejected p) as [e|] eqn:Hr.
    { cbn [step]. rewrite Hr. lia. }
    destruct (is_sentinel event) eqn:Es.
    + cbn [step]. rewrite Hr, (onParse_sentinel _ _ Es). cbv zeta.
      destruct (Stream.close (controller (reducer p))); cbn -[Nat.min]; lia.
    + rewrite (step_payload _ _ Es Hr). cbn [reducer].
      destruct (not_sentinel_cases _ Es) as [He|[He Hd]].
      { rewrite (onParse_other _ _ He). cbn -[Nat.min]. lia. }
      rewrite (onParse_payload _ _ He Hd).
      unfold position, carrying. cbn [events_of filter].
      rewrite He, (eqb_DONE _ Hd). cbn [andb negb].
      destruct (analyse (SSE.data event)) as [[[json text] str]|e];
        [|cbn -[Nat.min]; lia].
      cbv zeta.
      destruct (counter (reducer p) <? 2)%nat eqn:Eb.
      * destruct (JS.match_newline text) as [[|]|e] eqn:Em;
          [cbn -[Nat.min]; lia| |cbn -[Nat.min]; lia].
        destruct text; try discriminate.
        destruct (Stream.enqueue (JS.to_utf8 str) (controller (reducer p)));
          cbn -[Nat.min]; lia.
      * apply Nat.ltb_ge in Eb.
        destruct (Stream.enqueue (JS.to_utf8 str) (controller (reducer p)));
          cbn -[Nat.min]; lia.
  - cbn [step].
    destruct (Stream.read (controller (reducer p))) as [c [chunk|]];
      cbn -[Nat.min]; lia.
Qed.

Lemma run_position (acts : list action) (p : process) :
  (Nat.min 2 (counter (reducer (run acts p)))
   <= Nat.min 2 (counter (reducer p)) + position acts)%nat.
Proof.
  revert p. induction acts as [|a acts IH]; intros p.
  - cbn -[Nat.min]. lia.
  - cbn [run]. rewrite position_cons.
    specialize (IH (step a p)). pose proof (step_position a p). lia.
Qed.

(** C3, as amended.  An event that carries a string fragment and is
    handled after any run of events and reads.  The fragment is appended
    to the response.  Fewer than two fragments have been emitted when the
    fragment is at position 0 or 1; with a line feed and fewer than two
    fragments emitted it produces no output, at any position.  Without a
    line feed, or once two fragments have been emitted, it is emitted in
    its UTF-8 encoding whatever it holds, if the stream still accepts
    chunks; if the stream no longer does, nothing is emitted. *)
Theorem first_fragments (pre : list action) (event : SSE.event)
  (t : string) :
  carries event t ->
  rejected (run pre boot) = None ->
  let before := reducer (run pre boot) in
  let after := reducer (run (pre ++ [Feed event]) boot) in
  response after = response before ++ t /\
  ((position pre < 2)%nat -> (length (emitted before) < 2)%nat) /\
  (Str.contains_newline t = true -> (length (emitted before) < 2)%nat ->
   emitted after = emitted before) /\
  (Stream.canCloseOrEnqueue (controller before) = true ->
   Str.contains_newline t = false \/ (2 <= length (emitted before))%nat ->
   emitted after = (emitted before ++ [JS.to_utf8 t])%list) /\
  (Stream.canCloseOrEnqueue (controller before) = false ->
   emitted after = emitted before).
Proof.
  intros Hc Hr before after.
  assert (Ha : after = fst (onParse event before)).
  { unfold after. rewrite run_app. cbn [run].
    now rewrite (step_payload _ _ (carries_not_sentinel _ _ Hc) Hr). }
  destruct (counted_and_clean pre) as [Hlen _]. fold before in Hlen.
  pose proof (run_position pre boot) as Hpos. fold before in Hpos.
  cbn [boot reducer initial counter] in Hpos.
  destruct (onParse_string _ _ before Hc) as (json & _ & Hs).
  rewrite Hs in Ha. cbv zeta in Ha. rewrite Ha, <- Hlen. clear Ha Hs.
  split; [|split; [|split; [|split]]].
  - destruct ((counter before <? 2)%nat && Str.contains_newline t)%bool;
      [reflexivity|].
    now destruct (Stream.canCloseOrEnqueue (controller before)).
  - lia.
  - intros Hnl Hlt. apply Nat.ltb_lt in Hlt. now rewrite Hlt, Hnl.
  - intros Hg Hcase.
    assert (E : ((counter before <? 2)%nat && Str.contains_newline t)%bool
                = false).
    { destruct Hcase as [-> | Hge]; [apply andb_false_r|].
      apply Nat.ltb_ge in Hge. now rewrite Hge. }
    now rewrite E, Hg.
  - intros Hg. rewrite Hg.
    now destruct ((counter before <? 2)%nat && Str.contains_newline t)%bool.
Qed.

Lemma first_fragments_witness :
  emitted
    (reducer (run ([Feed hello; Read; Feed world] ++ [Feed newline]) boot)) =
  (emitted (reducer (run [Feed hello; Read; Feed world] boot))
   ++ [JS.to_utf8 (String Str.LF EmptyString)])%list.
Proof.
  destruct (first_fragments [Feed hello; Read; Feed world] newline
              (String Str.LF EmptyString)) as (_ & _ & _ & H & _).
  - exact newline_carries.
  - reflexivity.
  - apply H; [reflexivity|]. right. vm_compute. lia.
Defined.

(** X3. Nothing emitted is lost or reordered on its way to the consumer
    unless the stream is errored: while the stream is readable the chunks
    written followed by the chunks queued are the chunks emitted; once it
    is closed everything emitted has been written; once it is errored what
    was written is a prefix of what was emitted. *)
Theorem output_conserved (acts : list action) :
  let p := run acts boot in
  match Stream.state_of (controller (reducer p)) with
  | Stream.readable =>
      emitted (reducer p) =
      (stdout p ++ Stream.queue (controller (reducer p)))%list
  | Stream.closed =>
      emitted (reducer p) = stdout p /\
      Stream.queue (controller (reducer p)) = []
  | Stream.errored _ =>
      exists lost, emitted (reducer p) = (stdout p ++ lost)%list
  end.
Proof.
  apply (run_invariant
           (fun p =>
              match Stream.state_of (controller (reducer p)) with
              | Stream.readable =>
                  emitted (reducer p) =
                  (stdout p ++ Stream.queue (controller (reducer p)))%list
              | Stream.closed =>
                  emitted (reducer p) = stdout p /\
                  Stream.queue (controller (reducer p)) = []
              | Stream.errored _ =>
                  exists lost, emitted (reducer p) = (stdout p ++ lost)%list
              end)); [|reflexivity].
  assert (Herr : forall e p p',
             controller (reducer p') = Stream.error e (controller (reducer p)) ->
             emitted (reducer p') = emitted (reducer p) ->
             stdout p' = stdout p ->
             match Stream.state_of (controller (reducer p)) with
             | Stream.readable =>
                 emitted (reducer p) =
                 (stdout p ++ Stream.queue (controller (reducer p)))%list
             | Stream.closed =>
                 emitted (reducer p) = stdout p /\
                 Stream.queue (controller (reducer p)) = []
             | Stream.errored _ =>
                 exists lost, emitted (reducer p) = (stdout p ++ lost)%list
             end ->
             match Stream.state_of (controller (reducer p')) with
             | Stream.readable =>
                 emitted (reducer p') =
                 (stdout p' ++ Stream.queue (controller (reducer p')))%list
             | Stream.closed =>
                 emitted (reducer p') = stdout p' /\
                 Stream.queue (controller (reducer p')) = []
             | Stream.errored _ =>
                 exists lost, emitted (reducer p') = (stdout p' ++ lost)%list
             end).
  { intros e p p' K E O H. rewrite K, E, O. unfold Stream.error.
    destruct (Stream.state_of (controller (reducer p))) eqn:S; cbn.
    - eexists. exact H.
    - rewrite S. exact H.
    - rewrite S. exact H. }
  intros a p p' H Hm. cbv beta in *.
  destruct Hm as [a p p' K (_ & E & _ & O)
                 |event chunk p p' _ G K _ E _ _ O
                 |event e p p' _ K (_ & E & _ & O)
                 |event p p' _ K _ E _ O
                 |chunk p p' R _ E _ O].
  - now rewrite K, E, O.
  - rewrite K, E, O. cbn. unfold Stream.canCloseOrEnqueue in G.
    destruct (Stream.state_of (controller (reducer p))); try discriminate.
    now rewrite H, app_assoc.
  - now apply (Herr e p p').
  - unfold Stream.close in K.
    destruct (Stream.canCloseOrEnqueue (controller (reducer p))) eqn:G.
    + rewrite K, E, O. cbn. unfold Stream.canCloseOrEnqueue in G.
      destruct (Stream.state_of (controller (reducer p))); try discriminate.
      destruct (Stream.queue (controller (reducer p))) eqn:Q.
      * now rewrite app_nil_r in H.
      * exact H.
    + now apply (Herr TypeError p p').
  - unfold Stream.read in R.
    destruct (Stream.state_of (controller (reducer p))) eqn:S;
      try (inversion R; fail).
    destruct (Stream.queue (controller (reducer p))) as [|c rest] eqn:Q;
      inversion R as [[K X]]. subst c.
    rewrite E, O, H. cbn.
    destruct rest as [|c' rest'].
    + destruct (Stream.closeRequested (controller (reducer p)));
        cbn; [split; reflexivity|now rewrite app_nil_r].
    + now rewrite <- app_assoc.
Qed.

(** X4. The two ends of a stream are final.  Once the stream is closed or
    errored, no event and no read changes its controller any more: it stays
    closed, or errored with the first error. *)
Theorem terminal_state_kept (p : process) (more : list action) :
  Stream.state_of (controller (reducer p)) <> Stream.readable ->
  controller (reducer (run more p)) = controller (reducer p).
Proof.
  intros H.
  apply (run_invariant
           (fun q => controller (reducer q) = controller (reducer p)));
    [|reflexivity].
  intros a q q' Hq Hm. cbv beta in *.
  assert (Hs : Stream.state_of (controller (reducer q)) <> Stream.readable)
    by (now rewrite Hq).
  assert (Herr : forall e, Stream.error e (controller (reducer q)) =
                           controller (reducer q)).
  { intros e. unfold Stream.error.
    now destruct (Stream.state_of (controller (reducer q))). }
  assert (Hg : Stream.canCloseOrEnqueue (controller (reducer q)) = false).
  { unfold Stream.canCloseOrEnqueue.
    now destruct (Stream.state_of (controller (reducer q))). }
  destruct Hm as [a q q' K _
                 |event chunk q q' _ G _ _ _ _ _ _
                 |event e q q' _ K _
                 |event q q' _ K _ _ _ _
                 |chunk q q' R _ _ _ _].
  - congruence.
  - congruence.
  - rewrite K, Herr. exact Hq.
  - rewrite (close_shut _ Hg), Herr in K. congruence.
  - unfold Stream.read in R.
    destruct (Stream.state_of (controller (reducer q))); try congruence;
      inversion R.
Qed.

Lemma terminal_state_kept_witness :
  controller (reducer (run [Feed sentinel; Feed hello; Read]
                         (feed [hello; payload "{not valid"] boot))) =
  {| Stream.state_of := Stream.errored SyntaxError;
     Stream.closeRequested := false;
     Stream.queue := [] |}.
Proof.
  rewrite (terminal_state_kept (feed [hello; payload "{not valid"] boot)
             [Feed sentinel; Feed hello; Read]).
  - vm_compute. reflexivity.
  - vm_compute. discriminate.
Defined.

(** X5. Only a sentinel ends a stream well.  A run that delivers no
    sentinel never asks the stream to close and never closes it, so the
    reading loop of [main] is never told the end; nor does [start] ever
    fail in such a run. *)
Theorem never_closed_without_sentinel (acts : list action) :
  no_sentinel (events_of acts) = true ->
  let p := run acts boot in
  Stream.closeRequested (controller (reducer p)) = false /\
  Stream.state_of (controller (reducer p)) <> Stream.closed /\
  rejected p = None.
Proof.
  intros Q p.
  assert (I : forall acts q,
             no_sentinel (events_of acts) = true ->
             Stream.closeRequested (controller (reducer q)) = false /\
             Stream.state_of (controller (reducer q)) <> Stream.closed ->
             Stream.closeRequested (controller (reducer (run acts q))) = false /\
             Stream.state_of (controller (reducer (run acts q))) <>
             Stream.closed).
  { clear. induction acts as [|a acts IH]; intros q Q H; [exact H|].
    cbn [run]. apply IH.
    { destruct a; cbn in Q; [|exact Q].
      now apply andb_true_iff in Q as [_ Q]. }
    assert (Hq : forall event, a = Feed event -> is_sentinel event = false).
    { intros event ->. cbn in Q. apply andb_true_iff in Q as [Q _].
      now apply negb_true_iff in Q. }
    clear Q IH. destruct H as [Hc Hs].
    pose proof (step_moves a q) as Hm.
    remember (step a q) as q' eqn:Eq'. clear Eq'. revert Hq.
    destruct Hm as [a q q' K _
                   |event chunk q q' _ G K _ _ _ _ _
                   |event e q q' _ K _
                   |event q q' Es _ _ _ _ _
                   |chunk q q' R _ _ _ _]; intros Hq.
    - now rewrite K.
    - rewrite K. cbn. split; [reflexivity|discriminate].
    - rewrite K. unfold Stream.error.
      destruct (Stream.state_of (controller (reducer q))) eqn:S; cbn;
        rewrite ?S; split; try assumption; discriminate.
    - rewrite (Hq event eq_refl) in Es. discriminate.
    - unfold Stream.read in R.
      destruct (Stream.state_of (controller (reducer q))) eqn:S;
        try (inversion R; fail).
      destruct (Stream.queue (controller (reducer q))) as [|c rest];
        inversion R as [[K X]].
      cbn. rewrite Hc. split; [reflexivity|]. now destruct rest. }
  destruct (I acts boot Q) as [Hc Hs].
  { split; [reflexivity|discriminate]. }
  repeat split; try assumption.
  now apply (quiet_run acts boot Q).
Qed.

Lemma never_closed_without_sentinel_witness :
  Stream.state_of
    (controller (reducer (run [Feed hello; Read; Feed world; Read; Read] boot)))
  <> Stream.closed.
Proof.
  refine (proj1 (proj2 (never_closed_without_sentinel
                          [Feed hello; Read; Feed world; Read; Read] _))).
  reflexivity.
Defined.

(** A payload handled while the stream stays open, with no line feed and
    no surrogate in its fragment, is emitted as it is appended. *)
Lemma open_emits (event : SSE.event) (p : process) :
  rejected p = None ->
  gate (step (Feed event) p) = true ->
  Str.contains_newline (fragment event) = false ->
  scalar (fragment event) = true ->
  concat_all (emitted (reducer (step (Feed event) p))) =
  concat_all (emitted (reducer p)) ++ fragment event.
Proof.
  intros Hr Hg Hn Hu.
  destruct (is_sentinel event) eqn:Es.
  { destruct (sentinel_effects _ _ Es Hr) as (_ & _ & _ & _ & _ & _ & G & _).
    congruence. }
  rewrite (step_payload _ _ Es Hr) in Hg |- *. unfold gate in Hg.
  cbn [reducer] in *. unfold fragment in *.
  destruct (not_sentinel_cases _ Es) as [He|[He Hd]].
  { rewrite (onParse_other _ _ He), He. cbn. now rewrite append_empty. }
  rewrite He, (eqb_DONE _ Hd) in *. cbn [andb negb] in *.
  rewrite (onParse_payload _ _ He Hd) in Hg |- *.
  destruct (analyse (SSE.data event)) as [[[json text] str]|e] eqn:Ha.
  2:{ cbn in Hg. rewrite error_shut in Hg. discriminate. }
  destruct (analyse_inv _ _ _ _ Ha) as (_ & _ & Ht).
  cbv zeta in *.
  destruct (if (counter (reducer p) <? 2)%nat then JS.match_newline text
            else Normal false) as [[|]|e] eqn:Em.
  - destruct (counter (reducer p) <? 2)%nat; [|discriminate].
    destruct text; try discriminate. cbn in Em, Ht. congruence.
  - rewrite (to_utf8_scalar _ Hu) in *.
    destruct (Stream.enqueue str (controller (reducer p))) as [c|e].
    + cbn. rewrite concat_all_app. cbn. now rewrite append_empty.
    + cbn in Hg. rewrite error_shut in Hg. discriminate.
  - cbn in Hg. rewrite error_shut in Hg. discriminate.
Qed.

(** X6. What is shown is what is logged when no fragment holds a line
    feed or a surrogate: as long as the stream is open, the chunks emitted
    concatenate to the accumulated response. *)
Theorem shown_is_logged (acts : list action) :
  let p := run acts boot in
  streaming (reducer p) ->
  no_newlines (map fragment (events_of acts)) = true ->
  all_scalar (map fragment (events_of acts)) = true ->
  concat_all (emitted (reducer p)) = response (reducer p).
Proof.
  intros p Hs Hn Hu.
  assert (I : forall acts q,
             rejected q = None ->
             gate (run acts q) = true ->
             no_newlines (map fragment (events_of acts)) = true ->
             all_scalar (map fragment (events_of acts)) = true ->
             concat_all (emitted (reducer (run acts q))) =
             concat_all (emitted (reducer q))
             ++ concat_all (map fragment (events_of acts))).
  { clear. induction acts as [|a acts IH]; intros q Hr Hg Hn Hu.
    - cbn. now rewrite append_empty.
    - cbn [run] in *.
      assert (G1 : gate (step a q) = true).
      { destruct (gate (step a q)) eqn:G; [reflexivity|].
        destruct (shut_run acts _ G) as [G' _]. congruence. }
      destruct (open_step a q Hr G1) as (_ & R & _).
      destruct a as [event|].
      + cbn in Hn, Hu. apply andb_true_iff in Hn as [Hn1 Hn2].
        apply andb_true_iff in Hu as [Hu1 Hu2].
        apply negb_true_iff in Hn1.
        rewrite (IH _ R Hg Hn2 Hu2), (open_emits _ _ Hr G1 Hn1 Hu1).
        cbn. now rewrite append_assoc.
      + rewrite (IH _ R Hg Hn Hu).
        now destruct (read_effects q) as (_ & _ & -> & _). }
  destruct (open_history acts boot eq_refl Hs) as (_ & R & _).
  unfold p. rewrite (I acts boot eq_refl Hs Hn Hu), response_history.
  now rewrite (handled_all acts boot R).
Qed.

Lemma shown_is_logged_witness :
  concat_all (emitted (reducer (run [Feed hello; Read; Feed world] boot))) =
  response (reducer (run [Feed hello; Read; Feed world] boot)).
Proof.
  apply (shown_is_logged [Feed hello; Read; Feed world]).
  - reflexivity.
  - vm_compute. reflexivity.
  - vm_compute. reflexivity.
Defined.

(** X7. The response, the calls of [logger], the chunks emitted and the
    chunks written are append-only: a longer run only adds to what a
    shorter run has produced. *)
Theorem records_only_grow (acts more : list action) :
  let p := run acts boot in
  let q := run (acts ++ more) boot in
  exists text calls chunks written,
    response (reducer q) = response (reducer p) ++ text /\
    logged (reducer q) = (logged (reducer p) ++ calls)%list /\
    emitted (reducer q) = (emitted (reducer p) ++ chunks)%list /\
    stdout q = (stdout p ++ written)%list.
Proof.
  intros p q. unfold q. rewrite run_app. fold p.
  exists (concat_all (map fragment (handled more p))).
  assert (I : exists calls chunks written,
             logged (reducer (run more p)) = (logged (reducer p) ++ calls)%list /\
             emitted (reducer (run more p)) =
             (emitted (reducer p) ++ chunks)%list /\
             stdout (run more p) = (stdout p ++ written)%list).
  { apply (run_invariant
             (fun r => exists calls chunks written,
                  logged (reducer r) = (logged (reducer p) ++ calls)%list /\
                  emitted (reducer r) = (emitted (reducer p) ++ chunks)%list /\
                  stdout r = (stdout p ++ written)%list)).
    2:{ exists [], [], []. now rewrite !app_nil_r. }
    intros a r r' (calls & chunks & written & L & E & O) Hm.
    destruct Hm as [a r r' _ (_ & E' & L' & O')
                   |event chunk r r' _ _ _ _ E' _ L' O'
                   |event e r r' _ _ (_ & E' & L' & O')
                   |event r r' _ _ _ E' L' O'
                   |chunk r r' _ _ E' L' O'];
      rewrite L', E', O', L, E, O.
    - now exists calls, chunks, written.
    - exists calls, (chunks ++ [chunk])%list, written.
      now rewrite app_assoc.
    - now exists calls, chunks, written.
    - eexists (calls ++ [_])%list, chunks, written.
      now rewrite app_assoc.
    - exists calls, chunks, (written ++ [chunk])%list.
      now rewrite app_assoc. }
  destruct I as (calls & chunks & written & L & E & O).
  exists calls, chunks, written. rewrite response_history. now repeat split.
Qed.

(** X8. The consumer cannot influence the reducer.  However the reads of
    [main] are interleaved with the events, the counter, the metadata, the
    response, the calls of [logger], the chunks emitted and the fate of
    [start] are those of the same events fed back to back. *)
Theorem reads_do_not_interfere (acts : list action) :
  let p := run acts boot in
  let q := feed (events_of acts) boot in
  counter (reducer p) = counter (reducer q) /\
  data (reducer p) = data (reducer q) /\
  response (reducer p) = response (reducer q) /\
  logged (reducer p) = logged (reducer q) /\
  emitted (reducer p) = emitted (reducer q) /\
  rejected p = rejected q.
Proof.
  intros p q.
  destruct (reads_invisible acts boot boot) as (R & C & D & T & L & E & _).
  { repeat split. }
  repeat split; assumption.
Qed.

(** ** [unwrapMarkdown] *)

Lemma split_lines_cons (s : string) :
  exists line rest, Str.split_lines s = line :: rest.
Proof.
  induction s as [|c s (line & rest & IH)]; cbn [Str.split_lines];
    [do 2 eexists; reflexivity|].
  destruct (Ascii.eqb c Str.LF); [do 2 eexists; reflexivity|].
  rewrite IH. do 2 eexists; reflexivity.
Qed.

(** Joining the lines of a text gives the text back. *)
Lemma join_split (s : string) : Str.join_lines (Str.split_lines s) = s.
Proof.
  induction s as [|c s IH]; [reflexivity|]. cbn [Str.split_lines].
  destruct (split_lines_cons s) as (line & rest & E). rewrite E in *.
  destruct (Ascii.eqb c Str.LF) eqn:Ec.
  - apply Ascii.eqb_eq in Ec. subst c.
    change (Str.join_lines (EmptyString :: line :: rest))
      with (String Str.LF (Str.join_lines (line :: rest))).
    now rewrite IH.
  - rewrite <- IH. destruct rest; reflexivity.
Qed.

Lemma split_one_line (s : string) :
  Str.contains_newline s = false -> Str.split_lines s = [s].
Proof.
  induction s as [|c s IH]; cbn [Str.split_lines Str.contains_newline];
    [reflexivity|].
  destruct (Ascii.eqb c Str.LF); [discriminate|].
  intros H. now rewrite (IH H).
Qed.

Lemma split_first_line (a b : string) :
  Str.contains_newline a = false ->
  Str.split_lines (a ++ String Str.LF b) = a :: Str.split_lines b.
Proof.
  induction a as [|c a IH];
    cbn [append Str.split_lines Str.contains_newline].
  - intros _. now rewrite Ascii.eqb_refl.
  - destruct (Ascii.eqb c Str.LF); [discriminate|].
    intros H. now rewrite (IH H).
Qed.

Lemma split_final_line (b l : string) :
  Str.contains_newline l = false ->
  Str.split_lines (b ++ String Str.LF l) = (Str.split_lines b ++ [l])%list.
Proof.
  intros Hl. induction b as [|c b IH]; cbn [append Str.split_lines app].
  - now rewrite Ascii.eqb_refl, (split_one_line _ Hl).
  - rewrite IH. destruct (Ascii.eqb c Str.LF); [reflexivity|].
    destruct (split_lines_cons b) as (line & rest & ->). reflexivity.
Qed.

Lemma split_two_lines (s : string) :
  Str.contains_newline s = true ->
  exists a b rest, Str.split_lines s = a :: b :: rest.
Proof.
  induction s as [|c s IH]; cbn [Str.split_lines Str.contains_newline];
    [discriminate|].
  destruct (Ascii.eqb c Str.LF).
  - intros _. destruct (split_lines_cons s) as (line & rest & ->).
    do 3 eexists; reflexivity.
  - intros H. destruct (IH H) as (a & b & rest & ->).
    do 3 eexists; reflexivity.
Qed.

Lemma last_rev {A : Type} (l : list A) (d : A) :
  last l d = hd d (List.rev l).
Proof.
  induction l as [|x l IH] using rev_ind; [reflexivity|].
  now rewrite last_last, rev_app_distr.
Qed.

(** X9. A text whose first line is no opening fence and whose last line is
    no closing fence comes back from [unwrapMarkdown] as it went in, line
    feeds and all. *)
Theorem unwrap_plain (content : string) :
  Str.starts_with "```" (Str.trim (first_line content)) = false ->
  String.eqb (Str.trim (final_line content)) "```" = false ->
  unwrapMarkdown content = Normal content.
Proof.
  unfold first_line, final_line, unwrapMarkdown.
  destruct (split_lines_cons content) as (line & rest & E).
  rewrite E. cbn [hd]. intros -> Hf. rewrite last_rev in Hf.
  destruct (List.rev (line :: rest)) as [|final ?] eqn:Er.
  - apply (f_equal (@length string)) in Er.
    rewrite length_rev in Er. discriminate.
  - cbn [hd] in Hf. rewrite Hf, <- E. now rewrite join_split.
Qed.

Lemma unwrap_plain_witness :
  unwrapMarkdown ("let x = 1;" ++ String Str.LF "x") =
  Normal ("let x = 1;" ++ String Str.LF "x").
Proof.
  apply unwrap_plain; vm_compute; reflexivity.
Defined.

(** X10. A text between an opening fence line and a closing fence line
    comes back without the two lines, whatever it holds itself. *)
Theorem unwrap_fenced_body (opening body closing : string) :
  Str.contains_newline opening = false ->
  Str.starts_with "```" (Str.trim opening) = true ->
  Str.contains_newline closing = false ->
  Str.trim closing = "```" ->
  unwrapMarkdown
    (opening ++ String Str.LF (body ++ String Str.LF closing)) =
  Normal body.
Proof.
  intros Ho Hs Hc Ht. unfold unwrapMarkdown.
  rewrite (split_first_line _ _ Ho), Hs, (split_final_line _ _ Hc).
  rewrite rev_app_distr. cbn [List.rev app]. rewrite Ht.
  rewrite String.eqb_refl, removelast_last. now rewrite join_split.
Qed.

Lemma unwrap_fenced_body_witness :
  unwrapMarkdown
    ("```js" ++ String Str.LF
       (("a" ++ String Str.LF "b") ++ String Str.LF "``` ")) =
  Normal ("a" ++ String Str.LF "b").
Proof.
  apply unwrap_fenced_body; vm_compute; reflexivity.
Defined.

(** X11. [unwrapMarkdown] throws exactly on a text of one line that starts
    with a fence: the line is shifted away and the last line of nothing is
    read. *)
Theorem unwrap_throws (content : string) :
  unwrapMarkdown content = Throw TypeError <->
  Str.contains_newline content = false /\
  Str.starts_with "```" (Str.trim content) = true.
Proof.
  unfold unwrapMarkdown. split.
  - destruct (Str.contains_newline content) eqn:En.
    + destruct (split_two_lines _ En) as (a & b & rest & ->).
      destruct (Str.starts_with "```" (Str.trim a)).
      * destruct (List.rev (b :: rest)) eqn:Er; [|discriminate].
        apply (f_equal (@length string)) in Er.
        rewrite length_rev in Er. discriminate.
      * destruct (List.rev (a :: b :: rest)) eqn:Er; [|discriminate].
        apply (f_equal (@length string)) in Er.
        rewrite length_rev in Er. discriminate.
    + rewrite (split_one_line _ En).
      destruct (Str.starts_with "```" (Str.trim content));
        [now split|discriminate].
  - intros [En Hs]. now rewrite (split_one_line _ En), Hs.
Qed.

Lemma drop_space_fixed (backwards : bool) (s : string) :
  leading_space backwards s = false -> Str.drop_space backwards s = s.
Proof.
  destruct s as [|a [|b [|c s]]]; cbn; try reflexivity.
  - now destruct (Str.ws1 a).
  - destruct (Str.ws1 a); [discriminate|]. cbn.
    now destruct (if backwards then Str.ws2 b a else Str.ws2 a b).
  - destruct (Str.ws1 a); [discriminate|]. cbn.
    destruct (if backwards then Str.ws2 b a else Str.ws2 a b);
      [discriminate|]. cbn.
    now destruct (if backwards then Str.ws3 c b a else Str.ws3 a b c).
Qed.

(** Trimming twice is trimming once. *)
Lemma trim_idempotent (s : string) : Str.trim (Str.trim s) = Str.trim s.
Proof.
  destruct (trim_spec s) as (_ & Hs & He).
  set (t := Str.trim s) in *. unfold Str.trim, Str.trimStart, Str.trimEnd.
  rewrite (drop_space_fixed false t Hs).
  unfold ends_with_space in He.
  now rewrite (drop_space_fixed true _ He), rev_involutive.
Qed.

(** X12. With [--code], a reply that is one fence line is logged and then
    lost: [logger] has been called with it when [unwrapMarkdown] throws,
    and nothing is printed. *)
Theorem fence_line_logged_not_shown (args : options) (body : string)
  (reply : jsvalue) (content : string) :
  code args = true ->
  JSON.parse body = Normal reply ->
  content_of reply = Normal (Some (JString content)) ->
  Str.contains_newline (Str.trim content) = false ->
  Str.starts_with "```" (Str.trim content) = true ->
  main_oneshot args body =
  {| logger_calls := [(Str.trim content, reply)];
     console := [];
     outcome := Throw TypeError |}.
Proof.
  intros Hc Hp Hr Hn Hs. unfold main_oneshot, display.
  rewrite Hp, (response_of_content _ _ Hr), Hc.
  assert (U : unwrapMarkdown (Str.trim content) = Throw TypeError).
  { apply unwrap_throws. now rewrite trim_idempotent. }
  now rewrite U.
Qed.

Lemma fence_line_logged_not_shown_witness :
  main_oneshot
    {| code := true; log := true; system := None; gpt4 := false |}
    (Str.quoted "{'choices':[{'message':{'content':' ```js '}}]}") =
  {| logger_calls :=
       [("```js",
         JObject [("choices",
                   JArray [JObject [("message",
                     JObject [("content", JString " ```js ")])]])])];
     console := [];
     outcome := Throw TypeError |}.
Proof.
  apply (fence_line_logged_not_shown _ _ _ " ```js ").
  - reflexivity.
  - vm_compute. reflexivity.
  - reflexivity.
  - vm_compute. reflexivity.
  - vm_compute. reflexivity.
Defined.

(** ** [parsePrompt] *)

Lemma match_here_opening (s : string) (m : string * string * string) :
  Prompt.match_here s = Some m ->
  Str.starts_with "{{f" s = true \/ Str.starts_with "{{ f" s = true.
Proof.
  unfold Prompt.match_here, Str.starts_with.
  destruct s as [|a [|b r]]; try discriminate.
  cbn [Str.strip_prefix].
  rewrite (Ascii.eqb_sym "{" a), (Ascii.eqb_sym "{" b).
  destruct (Ascii.eqb a "{"); cbn [andb]; [|discriminate].
  destruct (Ascii.eqb b "{"); [|discriminate].
  destruct r as [|c r']; [discriminate|].
  rewrite (Ascii.eqb_sym "f" c), (Ascii.eqb_sym " " c).
  destruct (Ascii.eqb c " ") eqn:Ec.
  - destruct r' as [|f r2]; [discriminate|].
    rewrite (Ascii.eqb_sym "f" f).
    destruct (Ascii.eqb f "f"); [|discriminate].
    intros _. right. now destruct (Ascii.eqb c "f").
  - destruct (Ascii.eqb c "f"); [|discriminate]. intros _. now left.
Qed.

Lemma mentions_false (needle : string) (c : ascii) (s : string) :
  mentions needle (String c s) = false ->
  Str.starts_with needle (String c s) = false /\ mentions needle s = false.
Proof. cbn [mentions]. intros H. now apply orb_false_iff in H. Qed.

Lemma scan_without_opening (s : string) (skip : nat) :
  mentions "{{f" s = false ->
  mentions "{{ f" s = false ->
  Prompt.scan skip s = [].
Proof.
  revert skip. induction s as [|c s IH]; intros skip H1 H2; [reflexivity|].
  destruct (mentions_false _ _ _ H1) as [S1 M1].
  destruct (mentions_false _ _ _ H2) as [S2 M2].
  cbn [Prompt.scan]. destruct skip as [|k]; [|now apply IH].
  destruct (Prompt.match_here (String c s)) as [m|] eqn:E; [|now apply IH].
  destruct (match_here_opening _ _ E); congruence.
Qed.

(** X13. A prompt in which neither of the two openings of a placeholder
    occurs comes back unchanged, whatever the files are: none is looked
    up. *)
Theorem prompt_without_placeholder (fs : Prompt.filesystem)
  (prompt : string) :
  mentions "{{f" prompt = false ->
  mentions "{{ f" prompt = false ->
  Prompt.parsePrompt fs prompt = inr prompt.
Proof.
  intros H1 H2. unfold Prompt.parsePrompt.
  now rewrite (scan_without_opening _ 0 H1 H2).
Qed.

Lemma prompt_without_placeholder_witness :
  Prompt.parsePrompt (fun _ => None) "explain {{ this }} {f x}" =
  inr "explain {{ this }} {f x}".
Proof.
  apply prompt_without_placeholder; vm_compute; reflexivity.
Defined.

Lemma span_capture_stops (capture rest : string) :
  lacks "}" capture = true ->
  Prompt.span_capture (capture ++ String "}" rest) =
  (capture, String "}" rest).
Proof.
  induction capture as [|c capture IH]; cbn; [reflexivity|].
  intros H. apply andb_true_iff in H as [Hc H].
  apply negb_true_iff in Hc. now rewrite Hc, (IH H).
Qed.

(** A placeholder at the start of a text is matched as a whole. *)
Lemma match_placeholder (spaced : bool) (capture following : string) :
  capture <> EmptyString ->
  lacks "}" capture = true ->
  Prompt.match_here (placeholder spaced capture ++ following) =
  Some (placeholder spaced capture, capture, following).
Proof.
  intros Hne Hc. destruct capture as [|c run]; [congruence|].
  assert (E : forall rest,
             Prompt.span_capture
               ((String c run ++ "}}") ++ rest) =
             (String c run, String "}" (String "}" rest))).
  { intros rest. rewrite append_assoc.
    apply (span_capture_stops (String c run) (String "}" rest) Hc). }
  cbn [append] in E. unfold placeholder, Prompt.match_here.
  destruct spaced; cbn [append Ascii.eqb Bool.eqb andb];
    rewrite E; reflexivity.
Qed.

Lemma match_here_other (c : ascii) (s : string) :
  Ascii.eqb c "{" = false -> Prompt.match_here (String c s) = None.
Proof. intros H. cbn. destruct s; [reflexivity|]. now rewrite H. Qed.

Lemma scan_plain_prefix (preceding rest : string) :
  lacks "{" preceding = true ->
  Prompt.scan 0 (preceding ++ rest) = Prompt.scan 0 rest.
Proof.
  induction preceding as [|c preceding IH]; [reflexivity|].
  cbn [lacks append]. intros H. apply andb_true_iff in H as [Hc H].
  apply negb_true_iff in Hc.
  cbn [Prompt.scan]. now rewrite (match_here_other _ _ Hc), (IH H).
Qed.

Lemma scan_plain (s : string) :
  lacks "{" s = true -> Prompt.scan 0 s = [].
Proof.
  intros H. rewrite <- (append_empty s).
  now rewrite (scan_plain_prefix _ _ H).
Qed.

Lemma scan_skips (x y : string) :
  Prompt.scan (String.length x) (x ++ y) = Prompt.scan 0 y.
Proof. induction x as [|c x IH]; [reflexivity|exact IH]. Qed.

(** The matches of a prompt whose first opening brace starts a
    placeholder: that placeholder, then the matches of what follows. *)
Lemma scan_placeholder (spaced : bool) (preceding capture following : string) :
  lacks "{" preceding = true ->
  capture <> EmptyString ->
  lacks "}" capture = true ->
  Prompt.scan 0 (preceding ++ placeholder spaced capture ++ following) =
  (placeholder spaced capture, capture) :: Prompt.scan 0 following.
Proof.
  intros Hp Hne Hc. rewrite (scan_plain_prefix _ _ Hp).
  pose proof (match_placeholder spaced capture following Hne Hc) as M.
  remember (placeholder spaced capture) as ph eqn:Eph.
  assert (Hph : exists c tail, ph = String c tail).
  { subst ph. unfold placeholder. cbn. eauto. }
  destruct Hph as (c & tail & ->).
  cbn [append] in *. cbn [Prompt.scan]. rewrite M.
  cbn [String.length].
  replace (S (String.length tail) - 1)%nat with (String.length tail) by lia.
  now rewrite scan_skips.
Qed.

(** X14. A placeholder whose file does not exist makes [parsePrompt] fail
    with the trimmed capture as the path not found, when nothing before it
    opens a brace; what follows it is not looked at. *)
Theorem missing_file (fs : Prompt.filesystem) (spaced : bool)
  (preceding capture following : string) :
  lacks "{" preceding = true ->
  capture <> EmptyString ->
  lacks "}" capture = true ->
  fs (Str.trim capture) = None ->
  Prompt.parsePrompt fs
    (preceding ++ placeholder spaced capture ++ following) =
  inl (Prompt.FileNotFound (Str.trim capture)).
Proof.
  intros Hp Hne Hc Hf. unfold Prompt.parsePrompt.
  rewrite (scan_placeholder _ _ _ _ Hp Hne Hc). cbn [Prompt.expand].
  now rewrite Hf.
Qed.

Lemma missing_file_witness :
  Prompt.parsePrompt (fun _ => None) "sum up {{f ./notes.txt }} and {{f b}}" =
  inl (Prompt.FileNotFound "./notes.txt").
Proof.
  apply (missing_file (fun _ => None) false "sum up " " ./notes.txt "
           " and {{f b}}").
  - reflexivity.
  - discriminate.
  - reflexivity.
  - reflexivity.
Defined.

Lemma strip_prefix_app (x y : string) : Str.strip_prefix x (x ++ y) = Some y.
Proof.
  induction x as [|c x IH]; cbn; [reflexivity|].
  now rewrite Ascii.eqb_refl.
Qed.

Lemma find_after_plain (c : ascii) (search preceding following : string) :
  lacks c preceding = true ->
  Prompt.find (String c search)
    (preceding ++ String c search ++ following) =
  Some (preceding, following).
Proof.
  induction preceding as [|x preceding IH]; intros H.
  - cbn [append].
    change (String c (search ++ following))
      with (String c search ++ following).
    unfold Prompt.find. destruct (String c search ++ following) eqn:E;
      [discriminate|]. rewrite <- E.
    now rewrite (strip_prefix_app (String c search) following).
  - cbn [lacks] in H. apply andb_true_iff in H as [Hx H].
    apply negb_true_iff in Hx.
    cbn [append Prompt.find Str.strip_prefix].
    rewrite Ascii.eqb_sym, Hx.
    change (String c (search ++ following))
      with (String c search ++ following).
    now rewrite (IH H).
Qed.

Lemma substitute_plain (matched preceding following template : string) :
  lacks "$" template = true ->
  Prompt.substitute matched preceding following template = template.
Proof.
  induction template as [|a t IH]; [reflexivity|].
  cbn [lacks Prompt.substitute]. intros H.
  apply andb_true_iff in H as [Ha H]. apply negb_true_iff in Ha.
  now rewrite Ha, (IH H).
Qed.

(** The result for a prompt with a single placeholder, before any
    assumption on the dollar signs of the file. *)
Lemma expand_single (fs : Prompt.filesystem) (spaced : bool)
  (preceding capture following content : string) :
  lacks "{" preceding = true ->
  capture <> EmptyString ->
  lacks "}" capture = true ->
  lacks "{" following = true ->
  fs (Str.trim capture) = Some (Prompt.File content) ->
  Prompt.parsePrompt fs
    (preceding ++ placeholder spaced capture ++ following) =
  inr (preceding
       ++ Prompt.substitute (placeholder spaced capture) preceding following
            (Str.trim content)
       ++ following).
Proof.
  intros Hp Hne Hc Hf Hfs. unfold Prompt.parsePrompt.
  rewrite (scan_placeholder _ _ _ _ Hp Hne Hc), (scan_plain _ Hf).
  cbn [Prompt.expand]. rewrite Hfs. unfold Prompt.replace.
  assert (Hph : exists tail, placeholder spaced capture = String "{" tail).
  { unfold placeholder. cbn. eauto. }
  destruct Hph as (tail & Eph). rewrite Eph.
  now rewrite (find_after_plain "{" tail preceding following Hp).
Qed.

(** X15. A prompt with one placeholder and no other opening brace: the
    placeholder is replaced by the content of the file named by the
    trimmed capture, itself trimmed, when that content holds no dollar
    sign; the rest of the prompt stays as it is. *)
Theorem placeholder_replaced (fs : Prompt.filesystem) (spaced : bool)
  (preceding capture following content : string) :
  lacks "{" preceding = true ->
  capture <> EmptyString ->
  lacks "}" capture = true ->
  lacks "{" following = true ->
  fs (Str.trim capture) = Some (Prompt.File content) ->
  lacks "$" (Str.trim content) = true ->
  Prompt.parsePrompt fs
    (preceding ++ placeholder spaced capture ++ following) =
  inr (preceding ++ Str.trim content ++ following).
Proof.
  intros Hp Hne Hc Hf Hfs Hd.
  rewrite (expand_single fs spaced _ _ _ content Hp Hne Hc Hf Hfs).
  now rewrite (substitute_plain _ _ _ _ Hd).
Qed.

Lemma placeholder_replaced_witness :
  Prompt.parsePrompt notes "summarise: {{ f notes.txt }}!" =
  inr "summarise: buy milk!".
Proof.
  apply (placeholder_replaced notes true "summarise: " " notes.txt " "!"
           (" buy milk" ++ String Str.LF EmptyString)).
  - reflexivity.
  - discriminate.
  - reflexivity.
  - reflexivity.
  - reflexivity.
  - vm_compute. reflexivity.
Defined.

Lemma substitute_app (matched preceding following a template : string) :
  lacks "$" a = true ->
  Prompt.substitute matched preceding following (a ++ template) =
  a ++ Prompt.substitute matched preceding following template.
Proof.
  induction a as [|x a IH]; [reflexivity|].
  cbn [lacks append Prompt.substitute]. intros H.
  apply andb_true_iff in H as [Hx H]. apply negb_true_iff in Hx.
  now rewrite Hx, (IH H).
Qed.

(** X16. The content of a file is not inserted literally: [replace] reads
    it as a replacement pattern.  Where the trimmed content holds a dollar
    sign followed by an ampersand, the placeholder itself comes back in
    its place, and two dollar signs in a row come out as one. *)
Theorem dollar_patterns (fs : Prompt.filesystem) (spaced ampersand : bool)
  (preceding capture following content a b : string) :
  lacks "{" preceding = true ->
  capture <> EmptyString ->
  lacks "}" capture = true ->
  lacks "{" following = true ->
  fs (Str.trim capture) = Some (Prompt.File content) ->
  lacks "$" a = true ->
  lacks "$" b = true ->
  Str.trim content = a ++ (if ampersand then "$&" else "$$") ++ b ->
  Prompt.parsePrompt fs
    (preceding ++ placeholder spaced capture ++ following) =
  inr (preceding
       ++ (a ++ (if ampersand then placeholder spaced capture else "$")
             ++ b)
       ++ following).
Proof.
  intros Hp Hne Hc Hf Hfs Ha Hb Ht.
  rewrite (expand_single fs spaced _ _ _ content Hp Hne Hc Hf Hfs), Ht.
  rewrite (substitute_app _ _ _ _ _ Ha).
  destruct ampersand;
    cbn [append Prompt.substitute Ascii.eqb Bool.eqb];
    now rewrite (substitute_plain _ _ _ _ Hb).
Qed.

Lemma dollar_patterns_witness :
  Prompt.parsePrompt bill "pay {{f bill.txt}} now" =
  inr "pay cost: {{f bill.txt}} each now".
Proof.
  apply (dollar_patterns bill false true "pay " " bill.txt" " now"
           "cost: $& each" "cost: " " each").
  - reflexivity.
  - discriminate.
  - reflexivity.
  - reflexivity.
  - reflexivity.
  - reflexivity.
  - reflexivity.
  - vm_compute. reflexivity.
Defined.

(** ** Paths under the home directory *)

Lemma lacks_app (c : ascii) (a b : string) :
  lacks c (a ++ b) = (lacks c a && lacks c b)%bool.
Proof.
  induction a as [|x a IH]; [reflexivity|].
  cbn [append lacks]. now rewrite IH, andb_assoc.
Qed.

Lemma ordinary_inv (piece : string) :
  ordinary piece = true ->
  String.eqb piece EmptyString = false /\
  String.eqb piece "." = false /\
  String.eqb piece ".." = false /\
  lacks "/" piece = true.
Proof.
  unfold ordinary. intros H.
  apply andb_true_iff in H as [H H4]. apply andb_true_iff in H as [H H3].
  apply andb_true_iff in H as [H1 H2].
  apply negb_true_iff in H1, H2, H3. auto.
Qed.

Lemma path_split_cons (s : string) :
  exists first others, Path.split s = first :: others.
Proof.
  induction s as [|c s (first & others & IH)]; cbn [Path.split].
  - now do 2 eexists.
  - destruct (Ascii.eqb c "/"); [now do 2 eexists|].
    rewrite IH. now do 2 eexists.
Qed.

Lemma split_piece (piece rest : string) :
  lacks "/" piece = true ->
  Path.split (piece ++ rest) =
  match Path.split rest with
  | [] => [piece]
  | first :: others => (piece ++ first) :: others
  end.
Proof.
  destruct (path_split_cons rest) as (first & others & E). rewrite E.
  induction piece as [|c piece IH]; cbn [append lacks]; intros H.
  - exact E.
  - apply andb_true_iff in H as [Hc H]. apply negb_true_iff in Hc.
    cbn [Path.split]. now rewrite Hc, (IH H).
Qed.

Lemma split_glue (pieces : list string) :
  forallb ordinary pieces = true ->
  pieces <> [] ->
  Path.split (Path.glue pieces) = pieces.
Proof.
  induction pieces as [|p [|q r] IH]; intros H Hne; [congruence| |].
  - cbn [forallb] in H. apply andb_true_iff in H as [Hp _].
    destruct (ordinary_inv _ Hp) as (_ & _ & _ & L).
    cbn [Path.glue]. rewrite <- (append_empty p) at 1.
    rewrite (split_piece _ _ L). cbn. now rewrite append_empty.
  - cbn [forallb] in H. apply andb_true_iff in H as [Hp H].
    destruct (ordinary_inv _ Hp) as (_ & _ & _ & L).
    change (Path.glue (p :: q :: r)) with (p ++ "/" ++ Path.glue (q :: r)).
    rewrite (split_piece _ _ L). cbn [append Path.split Ascii.eqb Bool.eqb].
    rewrite (IH H ltac:(discriminate)). now rewrite append_empty.
Qed.

Lemma resolve_ordinary (allowAboveRoot : bool) (pieces kept : list string) :
  forallb ordinary pieces = true ->
  Path.resolve allowAboveRoot kept pieces = (List.rev kept ++ pieces)%list.
Proof.
  revert kept. induction pieces as [|p pieces IH]; intros kept H.
  - cbn. now rewrite app_nil_r.
  - cbn [forallb] in H. apply andb_true_iff in H as [Hp H].
    destruct (ordinary_inv _ Hp) as (E1 & E2 & E3 & _).
    cbn [Path.resolve]. rewrite E1, E2, E3. cbn [orb].
    rewrite (IH _ H). cbn [List.rev]. now rewrite <- app_assoc.
Qed.

Lemma lacks_rev (c : ascii) (s : string) :
  lacks c (Str.rev s) = lacks c s.
Proof.
  induction s as [|x s IH]; [reflexivity|].
  rewrite rev_cons, lacks_app, IH. cbn [lacks].
  rewrite andb_true_r. apply andb_comm.
Qed.

Lemma glue_lacks_nothing (pieces : list string) :
  forallb ordinary pieces = true ->
  pieces <> [] ->
  Path.glue pieces <> EmptyString /\
  Path.ends_with_slash (absolute pieces) = false.
Proof.
  intros H Hne. unfold absolute, Path.ends_with_slash.
  assert (G : exists body c, Path.glue pieces = body ++ String c EmptyString
                             /\ Ascii.eqb c "/" = false).
  { induction pieces as [|p [|q r] IH]; [congruence| |].
    - cbn [forallb] in H. apply andb_true_iff in H as [Hp _].
      destruct (ordinary_inv _ Hp) as (E & _ & _ & L). cbn [Path.glue].
      rewrite <- (rev_involutive p). rewrite <- lacks_rev in L.
      destruct (Str.rev p) as [|c t] eqn:Er.
      + rewrite <- (rev_involutive p), Er in E. discriminate.
      + exists (Str.rev t), c. rewrite rev_cons. split; [reflexivity|].
        cbn [lacks] in L. apply andb_true_iff in L as [L _].
        now apply negb_true_iff in L.
    - cbn [forallb] in H. apply andb_true_iff in H as [_ H].
      destruct (IH H ltac:(discriminate)) as (body & c & E & Hc).
      change (Path.glue (p :: q :: r)) with (p ++ "/" ++ Path.glue (q :: r)).
      exists (p ++ "/" ++ body), c. rewrite E.
      now rewrite !append_assoc. }
  destruct G as (body & c & E & Hc). rewrite E. split.
  - destruct body; discriminate.
  - change ("/" ++ body ++ String c EmptyString)
      with (String "/" body ++ String c EmptyString).
    rewrite rev_app. cbn. exact Hc.
Qed.

(** [path.normalize] leaves an absolute path of ordinary pieces as it
    is. *)
Lemma normalize_absolute (pieces : list string) :
  forallb ordinary pieces = true ->
  pieces <> [] ->
  Path.normalize (absolute pieces) = absolute pieces.
Proof.
  intros H Hne.
  destruct (glue_lacks_nothing _ H Hne) as [G T].
  unfold absolute in *. cbn [append] in *.
  unfold Path.normalize. cbv zeta. rewrite T.
  cbn [Path.split Ascii.eqb Bool.eqb]. cbv iota.
  rewrite (split_glue _ H Hne).
  cbn [Path.resolve String.eqb orb negb].
  rewrite (resolve_ordinary _ _ _ H). cbn [List.rev app].
  destruct (Path.glue pieces) eqn:E; [congruence|].
  cbn [append]. now rewrite append_empty.
Qed.

Lemma glue_app (front back : list string) :
  front <> [] -> back <> [] ->
  Path.glue (front ++ back) = Path.glue front ++ "/" ++ Path.glue back.
Proof.
  intros Hf Hb. induction front as [|p [|q r] IH]; [congruence| |].
  - destruct back; [congruence|reflexivity].
  - change (Path.glue ((p :: q :: r) ++ back))
      with (p ++ "/" ++ Path.glue ((q :: r) ++ back)).
    rewrite (IH ltac:(discriminate)).
    change (Path.glue (p :: q :: r)) with (p ++ "/" ++ Path.glue (q :: r)).
    now rewrite !append_assoc.
Qed.

Lemma forallb_app_true {A : Type} (f : A -> bool) (l1 l2 : list A) :
  forallb f l1 = true -> forallb f l2 = true ->
  forallb f (l1 ++ l2) = true.
Proof. intros H1 H2. rewrite forallb_app. now rewrite H1, H2. Qed.

(** Joining a home directory of ordinary pieces with a relative path of
    ordinary pieces puts one slash between the two. *)
Lemma join_under (home below : list string) (more : list string) :
  forallb ordinary home = true -> home <> [] ->
  forallb ordinary below = true -> below <> [] ->
  Path.joined more = Some (Path.glue below) ->
  Path.join (absolute home :: more) =
  absolute home ++ "/" ++ Path.glue below.
Proof.
  intros Hh Hne Hb Hnb Hm. unfold Path.join.
  cbn [Path.joined]. rewrite Hm.
  change (absolute home) with (String "/" (Path.glue home)).
  cbv iota beta.
  change (String "/" (Path.glue home) ++ "/" ++ Path.glue below)
    with ("/" ++ (Path.glue home ++ "/" ++ Path.glue below)).
  rewrite <- (glue_app _ _ Hne Hnb).
  apply (normalize_absolute (home ++ below)).
  - now apply forallb_app_true.
  - destruct home; [congruence|discriminate].
Qed.

(** X17. The log database is looked for at [.local/share/llm/log.db]
    under the home directory, when [HOME] is an absolute path of ordinary
    pieces. *)
Theorem log_db_under_home (home : list string) :
  forallb ordinary home = true ->
  home <> [] ->
  CLI.getLogDbPath (absolute home) =
  absolute home ++ "/.local/share/llm/log.db".
Proof.
  intros H Hne. unfold CLI.getLogDbPath.
  apply (join_under home [".local"; "share"; "llm"; "log.db"]);
    auto; discriminate.
Qed.

Lemma log_db_under_home_witness :
  CLI.getLogDbPath "/home/ada" = "/home/ada/.local/share/llm/log.db".
Proof.
  apply (log_db_under_home ["home"; "ada"]).
  - reflexivity.
  - discriminate.
Defined.

(** ** The way to the request *)

Lemma ws2_first (a b : ascii) : Str.ws2 a b = true -> Str.ws1 a = false.
Proof.
  unfold Str.ws2, Str.ws1. cbv zeta.
  generalize (nat_of_ascii a). intros x H.
  apply andb_true_iff in H as [H _]. apply Nat.eqb_eq in H. now subst x.
Qed.

Lemma ws3_first (a b c : ascii) :
  Str.ws3 a b c = true ->
  Str.ws1 a = false /\ Str.ws2 a b = false.
Proof.
  unfold Str.ws3, Str.ws2, Str.ws1. cbv zeta.
  generalize (nat_of_ascii a) (nat_of_ascii b) (nat_of_ascii c).
  intros x y z H.
  destruct (Nat.eqb x 225) eqn:E1; [apply Nat.eqb_eq in E1; now subst x|].
  destruct (Nat.eqb x 226) eqn:E2; [apply Nat.eqb_eq in E2; now subst x|].
  destruct (Nat.eqb x 227) eqn:E3; [apply Nat.eqb_eq in E3; now subst x|].
  destruct (Nat.eqb x 239) eqn:E4; [apply Nat.eqb_eq in E4; now subst x|].
  discriminate.
Qed.

(** White space alone trims to nothing. *)
Lemma trim_blank (s : string) : blank s -> Str.trim s = EmptyString.
Proof.
  intros H. unfold Str.trim, Str.trimStart.
  assert (D : Str.drop_space false s = EmptyString).
  { induction H as [|a s Ha _ IH|a b s Hab _ IH|a b c s Habc _ IH].
    - reflexivity.
    - cbn [Str.drop_space]. now rewrite Ha.
    - cbn [Str.drop_space]. now rewrite (ws2_first _ _ Hab), Hab.
    - destruct (ws3_first _ _ _ Habc) as [E1 E2].
      cbn [Str.drop_space]. now rewrite E1, E2, Habc. }
  now rewrite D.
Qed.

(** X18. With no prompt words and nothing but white space on standard
    input, the action ends in an uncaught [ReferenceError]: line 59 calls
    [parse], which is defined nowhere.  The message of line 60 is not
    printed, the exit of line 61 is not reached, and no request is
    made. *)
Theorem blank_input_throws (args : CLI.arguments) (stdin : string)
  (env : CLI.environment) (fs : Prompt.filesystem) (today : string) :
  blank stdin ->
  CLI.main args [] stdin env fs today =
  {| CLI.console_log := []; CLI.console_error := [];
     CLI.ending_of := CLI.Uncaught (CLI.ReferenceError "parse") |}.
Proof.
  intros H. unfold CLI.main, CLI.final_prompt, CLI.readFromStdin.
  now rewrite (trim_blank _ H).
Qed.

Lemma blank_input_throws_witness :
  CLI.main bare [] (" " ++ String Str.LF EmptyString) keyed empty_disk
    "2023-06-01" =
  {| CLI.console_log := []; CLI.console_error := [];
     CLI.ending_of := CLI.Uncaught (CLI.ReferenceError "parse") |}.
Proof.
  apply blank_input_throws.
  apply spaces_1; [reflexivity|]. apply spaces_1; [reflexivity|].
  apply spaces_empty.
Defined.

Lemma join_words_braceless (words : list string) :
  braceless words = true -> lacks "{" (CLI.join_words words) = true.
Proof.
  unfold braceless. induction words as [|w [|v r] IH]; intros H.
  - reflexivity.
  - cbn in H. now rewrite andb_true_r in H.
  - cbn [forallb] in H. apply andb_true_iff in H as [Hw H].
    change (CLI.join_words (w :: v :: r))
      with (w ++ " " ++ CLI.join_words (v :: r)).
    rewrite lacks_app, Hw. cbn [append lacks]. now rewrite (IH H).
Qed.

(** X19. Words without an opening brace reach the service as they are:
    with a key in the environment and no clash of [--code] and
    [--system], the request is made, whatever the files and the home
    directory are.  Its second message is the words joined by single
    spaces, its first the system text, the key is sent as a bearer token,
    and the model is chosen by [--gpt4] alone: the value of [--model] is
    not read. *)
Theorem plain_words_requested (args : CLI.arguments) (words : list string)
  (stdin : string) (env : CLI.environment) (fs : Prompt.filesystem)
  (today key : string) :
  braceless words = true ->
  CLI.join_words words <> EmptyString ->
  CLI.OPENAI_API_KEY env = Some key ->
  key <> EmptyString ->
  (code (CLI.opts args) && CLI.given (system (CLI.opts args)))%bool
  = false ->
  let result := CLI.main args words stdin env fs today in
  CLI.console_log result = [CLI.loading (CLI.join_words words) false] /\
  CLI.console_error result = [] /\
  exists r,
    CLI.ending_of result = CLI.Requested r /\
    CLI.payload_messages r =
      [ {| CLI.role := "system";
           CLI.content := system_of (CLI.opts args) today |};
        {| CLI.role := "user"; CLI.content := CLI.join_words words |} ] /\
    CLI.payload_model r =
      (if gpt4 (CLI.opts args) then "gpt-4" else "gpt-3.5-turbo") /\
    CLI.payload_stream r = CLI.stream args /\
    firstn 2 (CLI.headers r) =
      [("Content-Type", "application/json");
       ("Authorization", "Bearer " ++ key)].
Proof.
  intros Hb Hne Hk Hkey Hc result. subst result.
  unfold CLI.main.
  assert (F : CLI.final_prompt words stdin = CLI.join_words words).
  { destruct words; [|reflexivity]. now contradiction Hne. }
  rewrite F. apply String.eqb_neq in Hne. rewrite Hne.
  unfold Prompt.parsePrompt.
  rewrite (scan_plain _ (join_words_braceless _ Hb)).
  cbn [Prompt.expand]. rewrite Hc, String.eqb_refl.
  unfold CLI.getOpenaiApiKey. rewrite Hk.
  destruct key as [|c key]; [congruence|].
  cbn [CLI.console_log CLI.console_error CLI.ending_of negb].
  split; [reflexivity|]. split; [reflexivity|].
  eexists. split; [reflexivity|].
  cbn [CLI.payload_messages CLI.payload_model CLI.payload_stream
       CLI.headers]. repeat split.
Qed.

Lemma plain_words_requested_witness :
  exists r,
    CLI.ending_of
      (CLI.main bare ["hello"; "world"] EmptyString keyed empty_disk
         "2023-06-01") = CLI.Requested r /\
    CLI.payload_model r = "gpt-3.5-turbo" /\
    nth 1 (CLI.payload_messages r)
      {| CLI.role := EmptyString; CLI.content := EmptyString |} =
    {| CLI.role := "user"; CLI.content := "hello world" |}.
Proof.
  destruct (plain_words_requested bare ["hello"; "world"] EmptyString keyed
              empty_disk "2023-06-01" "sk-1")
    as (_ & _ & r & Hr & Hm & Hmodel & _).
  - reflexivity.
  - discriminate.
  - reflexivity.
  - discriminate.
  - reflexivity.
  - exists r. split; [exact Hr|]. split; [exact Hmodel|].
    rewrite Hm. reflexivity.
Defined.

Lemma key_path (home : list string) :
  forallb ordinary home = true ->
  home <> [] ->
  Path.join [absolute home; CLI.KEY_FILE] =
  absolute home ++ "/.openai-api-key.txt".
Proof.
  intros H Hne.
  apply (join_under home [".openai-api-key.txt"]); auto; discriminate.
Qed.

(** X20. Without a key in the environment (unset or empty) and without
    the key file under the home directory, the action prints the loading
    line, then the message about the missing key on the error stream, and
    exits with status 1; no request is made. *)
Theorem missing_key_exits (args : CLI.arguments) (words : list string)
  (stdin : string) (env : CLI.environment) (fs : Prompt.filesystem)
  (today expanded : string) (home : list string) :
  CLI.final_prompt words stdin <> EmptyString ->
  Prompt.parsePrompt fs (CLI.final_prompt words stdin) = inr expanded ->
  (code (CLI.opts args) && CLI.given (system (CLI.opts args)))%bool
  = false ->
  CLI.given (CLI.OPENAI_API_KEY env) = false ->
  forallb ordinary home = true ->
  home <> [] ->
  CLI.HOME env = Some (absolute home) ->
  fs (absolute home ++ "/.openai-api-key.txt") = None ->
  CLI.main args words stdin env fs today =
  {| CLI.console_log :=
       [CLI.loading (CLI.final_prompt words stdin)
          (negb (String.eqb expanded (CLI.final_prompt words stdin)))];
     CLI.console_error := [CLI.NO_KEY_MESSAGE];
     CLI.ending_of := CLI.Exited 1 |}.
Proof.
  intros Hne Hp Hc Hk Hh Hhne Hhome Hfs. unfold CLI.main.
  apply String.eqb_neq in Hne. rewrite Hne, Hp, Hc.
  assert (K : CLI.getOpenaiApiKey env fs = CLI.NoKey).
  { unfold CLI.getOpenaiApiKey. rewrite Hhome.
    rewrite (key_path _ Hh Hhne), Hfs.
    unfold CLI.given in Hk.
    destruct (CLI.OPENAI_API_KEY env) as [[|c k]|];
      [reflexivity|discriminate|reflexivity]. }
  now rewrite K.
Qed.

Lemma missing_key_exits_witness :
  CLI.main bare ["hello"] EmptyString keyless empty_disk "2023-06-01" =
  {| CLI.console_log := [CLI.loading "hello" false];
     CLI.console_error := [CLI.NO_KEY_MESSAGE];
     CLI.ending_of := CLI.Exited 1 |}.
Proof.
  apply (missing_key_exits bare ["hello"] EmptyString keyless empty_disk
           "2023-06-01" "hello" ["home"; "ada"]).
  - discriminate.
  - reflexivity.
  - reflexivity.
  - reflexivity.
  - reflexivity.
  - discriminate.
  - reflexivity.
  - reflexivity.
Defined.

(** X21. Without a key in the environment, the key is the text of the
    file [.openai-api-key.txt] under the home directory with the white
    space at its two ends removed. *)
Theorem key_from_file (env : CLI.environment) (fs : Prompt.filesystem)
  (home : list string) (text : string) :
  CLI.given (CLI.OPENAI_API_KEY env) = false ->
  forallb ordinary home = true ->
  home <> [] ->
  CLI.HOME env = Some (absolute home) ->
  fs (absolute home ++ "/.openai-api-key.txt") = Some (Prompt.File text) ->
  CLI.getOpenaiApiKey env fs = CLI.Key (Str.trim text) /\
  starts_with_space (Str.trim text) = false /\
  ends_with_space (Str.trim text) = false.
Proof.
  intros Hk Hh Hhne Hhome Hfs. split; [|apply trim_spec].
  unfold CLI.getOpenaiApiKey. rewrite Hhome.
  rewrite (key_path _ Hh Hhne), Hfs.
  unfold CLI.given in Hk.
  destruct (CLI.OPENAI_API_KEY env) as [[|c k]|];
    [reflexivity|discriminate|reflexivity].
Qed.

Lemma key_from_file_witness :
  CLI.getOpenaiApiKey keyless key_disk = CLI.Key "sk-2".
Proof.
  apply (key_from_file keyless key_disk ["home"; "ada"]
           (" sk-2" ++ String Str.LF EmptyString)); try reflexivity.
  discriminate.
Defined.

(** X22. With [--code] and a non-empty [--system] together no request is
    made and nothing is printed on standard output, whatever the prompt,
    the environment and the files are. *)
Theorem clash_never_requests (args : CLI.arguments) (words : list string)
  (stdin : string) (env : CLI.environment) (fs : Prompt.filesystem)
  (today : string) :
  code (CLI.opts args) = true ->
  CLI.given (system (CLI.opts args)) = true ->
  let result := CLI.main args words stdin env fs today in
  CLI.console_log result = [] /\
  (forall r, CLI.ending_of result <> CLI.Requested r) /\
  (CLI.ending_of result = CLI.Exited 1 <->
   CLI.final_prompt words stdin <> EmptyString /\
   exists expanded,
     Prompt.parsePrompt fs (CLI.final_prompt words stdin) = inr expanded).
Proof.
  intros Hc Hs result. subst result. unfold CLI.main. rewrite Hc, Hs.
  cbn [andb].
  destruct (String.eqb (CLI.final_prompt words stdin) EmptyString) eqn:E.
  - cbn. repeat split; try discriminate.
    apply String.eqb_eq in E. now intros [H _].
  - apply String.eqb_neq in E.
    destruct (Prompt.parsePrompt fs (CLI.final_prompt words stdin))
      as [failure|expanded]; cbn.
    + repeat split; try discriminate. now intros (_ & expanded & H).
    + repeat split; try discriminate; eauto.
Qed.

Lemma clash_never_requests_witness :
  CLI.ending_of
    (CLI.main torn ["hello"] EmptyString keyed empty_disk "2023-06-01") =
  CLI.Exited 1.
Proof.
  apply (clash_never_requests torn ["hello"] EmptyString keyed empty_disk
           "2023-06-01"); [reflexivity|reflexivity|].
  split; [discriminate|]. exists "hello". reflexivity.
Defined.
